(** * Biofouling of microplastics: the [Kooi] and [Profiles] kernels

    Shallow embedding of the two particle kernels of
    [SOAC_regional_Kooi+NEMO_3D_noAdvection.py]:

    - [Profiles] (source lines 163-175) samples the ocean fields at the
      particle and derives the dynamic and kinematic viscosity of sea water;
    - [Kooi] (source lines 28-139) advances the attached-algae density, the
      settling velocity and the depth of one particle by one time step.

    Number model.  The kernels compute with floating-point numbers; they are
    embedded here over the real numbers of the Standard Library.  Rounding,
    overflow, infinities and NaN are outside the model.  In [Kooi] the model
    keeps the partiality of the arithmetic: a division by zero, [math.log10]
    of a non-positive number and a negative base raised to a fractional
    power have no finite real result.  On plain Python floats the first two
    raise and the third gives a complex number; on the [float32] attributes
    of a particle in a run they give an infinity or a NaN and the kernel
    goes on with it.  Either way the run has left the real numbers: the
    model does not follow it further and returns [None].  A result
    [Some _] is a run in which every operation had a finite real result.
    [Profiles] has no such stop: see its definition. *)

From Stdlib Require Import Reals Lra Lia ZArith List PeanoNat.
Import ListNotations.
Open Scope R_scope.

(** ** The error monad of a kernel run *)

Definition bind {A B : Type} (m : option A) (k : A -> option B) : option B :=
  match m with
  | Some x => k x
  | None => None
  end.

Notation "x <- m ;; k" := (bind m (fun x => k))
  (at level 61, m at next level, right associativity).

(** ** Python float operations, over the reals *)

Module Py.

(** [x / y]: true division.  A zero divisor has no finite real quotient
    (an exception on plain floats, an infinity or NaN on the attributes of
    a particle): [None]. *)
Definition div (x y : R) : option R :=
  if Req_dec_T y 0 then None else Some (x / y).

(** [x ** y] on floats.  A positive base has the real power
    [exp (y * ln x)].  A zero base gives 0 for a positive exponent, 1 for
    the exponent 0 and has no finite power for a negative one.  A negative
    base has a real power only for an integral exponent; for any other
    exponent the power is a complex number on plain floats and a NaN on the
    attributes of a particle: [None]. *)
Definition pow (x y : R) : option R :=
  if Rlt_dec 0 x then Some (Rpower x y)
  else if Req_dec_T x 0 then
    if Rlt_dec 0 y then Some 0
    else if Req_dec_T y 0 then Some 1
    else None
  else if Req_dec_T (IZR (Int_part y)) y then Some (powerRZ x (Int_part y))
  else None.

(** [math.log10 x]: no finite real result outside the positive reals. *)
Definition log10 (x : R) : option R :=
  if Rlt_dec 0 x then Some (ln x / ln 10) else None.

End Py.

(** ** Particles and the field set *)

(** The attributes of [plastic_particle] (source lines 179-201) together
    with the attributes [lon], [lat], [depth] and [dt] it inherits. *)
Module F.

Inductive name : Set :=
| lon | lat | depth | dt
| u | v | w | w_adv | temp | density | tpp3 | d_phy | nd_phy
| a | a_coll | a_growth | a_resp | kin_visc | sw_visc | vs
| rho_tot | r_tot | delta_rho | vs_init | r_pl | rho_pl.

Definition eq_dec (x y : name) : {x = y} + {x <> y}.
Proof. decide equality. Defined.

End F.

(** A particle is its attribute table. *)
Definition Particle : Type := F.name -> R.

(** [particle.f = x] *)
Definition setattr (particle : Particle) (f : F.name) (x : R) : Particle :=
  fun g => if F.eq_dec g f then x else particle g.

(** The constants added to the field set (source lines 321-329) and the
    gridded fields sampled by [Profiles], as functions of time, depth,
    latitude and longitude. *)
Record Fieldset : Type := {
  M_a : R;
  K : R;
  Rho_bf : R;
  V_a : R;
  R20 : R;
  Q10 : R;
  Gamma : R;
  Wt_N : R;
  G : R;
  cons_temperature : R -> R -> R -> R -> R;
  d_phy : R -> R -> R -> R -> R;
  nd_phy : R -> R -> R -> R -> R;
  tpp3 : R -> R -> R -> R -> R;
  abs_salinity : R -> R -> R -> R -> R;
  W : R -> R -> R -> R -> R
}.

(** The local variables of one run of [Kooi] that the properties below
    speak about; a run records them next to the particle it returns. *)
Record Locals : Type := {
  l_aa : R;
  l_mu_n : R;
  l_mu_aa : R;
  l_theta_pl : R;
  l_r_a : R;
  l_v_tot : R;
  l_t_bf : R;
  l_r_tot : R;
  l_rho_tot : R;
  l_beta_a : R;
  l_a_coll : R;
  l_a_growth : R;
  l_a_mort : R;
  l_a_resp : R;
  l_delta_rho : R;
  l_dstar : R;
  l_w : R;
  l_vs_init : R;
  l_z0 : R
}.

(** ** The kernels *)

(** The band test of the depth clamp, [z0 <= 0.6 or z0 >= 4000.]
    (source line 130). *)
Definition out_of_band (z0 : R) : bool :=
  if Rle_dec z0 0.6 then true else if Rge_dec z0 4000 then true else false.

(** [Kooi] (source lines 28-139), line by line.  Two shorthands: a division
    whose divisor is a non-zero literal or [math.pi] cannot fault and is
    written with the division of the reals, and a power with one of the
    literal exponents [2.], [3.], [4.] is written with [^] (lemma
    [pow_literal] below shows that [Py.pow] returns exactly that).  All
    other divisions and powers go through [Py.div] and [Py.pow]. *)
Definition Kooi_body (fieldset : Fieldset) (particle : Particle)
  : option (Locals * Particle) :=
  let g := G fieldset in
  let k := K fieldset in
  let rho_bf := Rho_bf fieldset in
  let v_a := V_a fieldset in
  let m_a := M_a fieldset in
  let r20 := R20 fieldset in
  let q10 := Q10 fieldset in
  let gamma := Gamma fieldset in
  let z := particle F.depth in
  let t := particle F.temp in
  let sw_visc := particle F.sw_visc in
  let kin_visc := particle F.kin_visc in
  let rho_sw := particle F.density in
  let a := particle F.a in
  let vs := particle F.vs in
  let med_N2cell := 356.04e-09 in
  let wt_N := Wt_N fieldset in
  let n0 := particle F.nd_phy + particle F.d_phy in
  let n := n0 * wt_N in
  let n2 := n / med_N2cell in
  let aa := if Rlt_dec n2 0 then 0 else n2 in
  let tpp0 := particle F.tpp3 in
  let mu_n0 := tpp0 * wt_N in
  let mu_n := mu_n0 / med_N2cell in
  mu_n2 <- Py.div mu_n aa ;;
  let mu_aa := if Rlt_dec mu_n2 0 then 0 else mu_n2 / 86400 in
  let v_pl := (4 / 3) * PI * particle F.r_pl ^ 3 in
  let theta_pl := 4 * PI * particle F.r_pl ^ 2 in
  r_a <- Py.pow ((3 / 4) * (v_a / PI)) (1 / 3) ;;
  let v_bf := (v_a * a) * theta_pl in
  let v_tot := v_bf + v_pl in
  c <- Py.pow (v_tot * (3 / (4 * PI))) (1 / 3) ;;
  let t_bf := c - particle F.r_pl in
  let r_tot := particle F.r_pl + t_bf in
  rho_tot <- Py.div (particle F.r_pl ^ 3 * particle F.rho_pl
                     + ((particle F.r_pl + t_bf) ^ 3 - particle F.r_pl ^ 3) * rho_bf)
                    ((particle F.r_pl + t_bf) ^ 3) ;;
  let theta_tot := 4 * PI * r_tot ^ 2 in
  d_pl <- Py.div (k * (t + 273.16)) (6 * PI * sw_visc * r_tot) ;;
  d_a <- Py.div (k * (t + 273.16)) (6 * PI * sw_visc * r_a) ;;
  let beta_abrown := 4 * PI * (d_pl + d_a) * (r_tot + r_a) in
  let beta_ashear := 1.3 * gamma * ((r_tot + r_a) ^ 3) in
  let beta_aset := (1 / 2) * PI * r_tot ^ 2 * Rabs vs in
  let beta_a := beta_abrown + beta_ashear + beta_aset in
  a_coll <- Py.div (beta_a * aa) theta_pl ;;
  let a_growth := mu_aa * a in
  let a_mort := m_a * a in
  q <- Py.pow q10 ((t - 20) / 10) ;;
  let a_resp := q * r20 * a in
  let particle := setattr particle F.a_coll a_coll in
  let particle := setattr particle F.a_growth a_growth in
  let particle := setattr particle F.a_resp a_resp in
  let particle :=
    setattr particle F.a
      (particle F.a + (a_coll + a_growth - a_mort - a_resp) * particle F.dt) in
  let dn := 2 * r_tot in
  delta_rho <- Py.div (rho_tot - rho_sw) rho_sw ;;
  dstar <- Py.div ((rho_tot - rho_sw) * g * dn ^ 3) (rho_sw * kin_visc ^ 2) ;;
  w <- (if Rgt_dec dstar 5e9 then Some 1000
        else if Rlt_dec dstar 0.05 then Some (dstar ^ 2 * 1.71e-4)
        else
          lg <- Py.log10 dstar ;;
          Py.pow 10 (-3.76715 + 1.92944 * lg - 0.09815 * lg ^ 2
                     - 0.00575 * lg ^ 3 + 0.00056 * lg ^ 4)) ;;
  vs <- (if Rgt_dec delta_rho 0 then
           Py.pow (g * kin_visc * w * delta_rho) (1 / 3)
         else
           let a_del_rho := delta_rho * -1 in
           c <- Py.pow (g * kin_visc * w * a_del_rho) (1 / 3) ;;
           Some (-1 * c)) ;;
  let vs_init := vs in
  let particle := setattr particle F.vs_init vs in
  let z0 := z + vs * particle F.dt in
  let '(vs, particle) :=
    if out_of_band z0 then (0, setattr particle F.depth 0.6)
    else (vs, setattr particle F.depth (particle F.depth + vs * particle F.dt)) in
  let particle := setattr particle F.vs vs in
  let particle := setattr particle F.rho_tot rho_tot in
  let particle := setattr particle F.r_tot r_tot in
  let particle := setattr particle F.delta_rho delta_rho in
  Some ({| l_aa := aa; l_mu_n := mu_n; l_mu_aa := mu_aa;
           l_theta_pl := theta_pl; l_r_a := r_a; l_v_tot := v_tot;
           l_t_bf := t_bf; l_r_tot := r_tot; l_rho_tot := rho_tot;
           l_beta_a := beta_a; l_a_coll := a_coll; l_a_growth := a_growth;
           l_a_mort := a_mort; l_a_resp := a_resp;
           l_delta_rho := delta_rho; l_dstar := dstar; l_w := w;
           l_vs_init := vs_init; l_z0 := z0 |},
        particle).

(** The kernel proper returns the particle only. *)
Definition Kooi (fieldset : Fieldset) (particle : Particle) : option Particle :=
  option_map snd (Kooi_body fieldset particle).

(** [Profiles] (source lines 163-175).  The field samples are total
    functions here: a failed interpolation is handled outside the kernel.
    The kernel has no error condition of its own: its two divisions, by
    [0.157 * (temp + 64.993) ** 2 - 91.296] and by [particle.density], act
    on the attributes of a particle, where a zero divisor gives an infinity
    and no exception.  They are written with the division of the reals,
    whose quotient by 0 stands for that value, so [Profiles] always returns
    a particle. *)
Definition Profiles (fieldset : Fieldset) (particle : Particle) (time : R)
  : option Particle :=
  let particle :=
    setattr particle F.temp
      (cons_temperature fieldset time (particle F.depth) (particle F.lat) (particle F.lon)) in
  let particle :=
    setattr particle F.d_phy
      (d_phy fieldset time (particle F.depth) (particle F.lat) (particle F.lon)) in
  let particle :=
    setattr particle F.nd_phy
      (nd_phy fieldset time (particle F.depth) (particle F.lat) (particle F.lon)) in
  let particle :=
    setattr particle F.tpp3
      (tpp3 fieldset time (particle F.depth) (particle F.lat) (particle F.lon)) in
  let mu_w :=
    4.2844e-5 + 1 / ((0.157 * (particle F.temp + 64.993) ^ 2) - 91.296) in
  let A := 1.541 + 1.998e-2 * particle F.temp - 9.52e-5 * particle F.temp ^ 2 in
  let B := 7.974 - 7.561e-2 * particle F.temp + 4.724e-4 * particle F.temp ^ 2 in
  let S_sw :=
    abs_salinity fieldset time (particle F.depth) (particle F.lat) (particle F.lon)
    / 1000 in
  let particle := setattr particle F.sw_visc (mu_w * (1 + A * S_sw + B * S_sw ^ 2)) in
  let particle :=
    setattr particle F.kin_visc (particle F.sw_visc / particle F.density) in
  let particle :=
    setattr particle F.w_adv
      (W fieldset time (particle F.depth) (particle F.lat) (particle F.lon)) in
  Some particle.

(** ** What a completed run of [Kooi] has computed *)

(** The attribute table [Kooi] leaves behind, read off the assignments to
    [particle] in source lines 104-107, 127 and 131-139. *)
Definition Kooi_writes (particle : Particle) (l : Locals) : Particle :=
  fun f =>
    match f with
    | F.a_coll => l_a_coll l
    | F.a_growth => l_a_growth l
    | F.a_resp => l_a_resp l
    | F.a =>
        particle F.a
        + (l_a_coll l + l_a_growth l - l_a_mort l - l_a_resp l) * particle F.dt
    | F.vs_init => l_vs_init l
    | F.depth =>
        if out_of_band (l_z0 l) then 0.6
        else particle F.depth + l_vs_init l * particle F.dt
    | F.vs => if out_of_band (l_z0 l) then 0 else l_vs_init l
    | F.rho_tot => l_rho_tot l
    | F.r_tot => l_r_tot l
    | F.delta_rho => l_delta_rho l
    | _ => particle f
    end.

(** The equations between the input particle [p], the local variables [l]
    and the returned particle [p'] of a completed run, in source order. *)
Record Kooi_run (fs : Fieldset) (p : Particle) (l : Locals) (p' : Particle)
  : Prop := {
  run_aa :
    l_aa l =
    (if Rlt_dec ((p F.nd_phy + p F.d_phy) * Wt_N fs / 356.04e-9) 0 then 0
     else (p F.nd_phy + p F.d_phy) * Wt_N fs / 356.04e-9);
  run_mu_n : l_mu_n l = p F.tpp3 * Wt_N fs / 356.04e-9;
  run_mu_aa :
    exists mu_n2,
      Py.div (l_mu_n l) (l_aa l) = Some mu_n2 /\
      l_mu_aa l = (if Rlt_dec mu_n2 0 then 0 else mu_n2 / 86400);
  run_theta_pl : l_theta_pl l = 4 * PI * p F.r_pl ^ 2;
  run_r_a : Py.pow (3 / 4 * (V_a fs / PI)) (1 / 3) = Some (l_r_a l);
  run_v_tot :
    l_v_tot l = V_a fs * p F.a * l_theta_pl l + 4 / 3 * PI * p F.r_pl ^ 3;
  run_t_bf :
    exists c,
      Py.pow (l_v_tot l * (3 / (4 * PI))) (1 / 3) = Some c /\
      l_t_bf l = c - p F.r_pl;
  run_r_tot : l_r_tot l = p F.r_pl + l_t_bf l;
  run_rho_tot :
    Py.div (p F.r_pl ^ 3 * p F.rho_pl
            + ((p F.r_pl + l_t_bf l) ^ 3 - p F.r_pl ^ 3) * Rho_bf fs)
           ((p F.r_pl + l_t_bf l) ^ 3) = Some (l_rho_tot l);
  run_beta_a :
    exists d_pl d_a,
      Py.div (K fs * (p F.temp + 273.16)) (6 * PI * p F.sw_visc * l_r_tot l)
      = Some d_pl /\
      Py.div (K fs * (p F.temp + 273.16)) (6 * PI * p F.sw_visc * l_r_a l)
      = Some d_a /\
      l_beta_a l =
      4 * PI * (d_pl + d_a) * (l_r_tot l + l_r_a l)
      + 1.3 * Gamma fs * (l_r_tot l + l_r_a l) ^ 3
      + 1 / 2 * PI * l_r_tot l ^ 2 * Rabs (p F.vs);
  run_a_coll :
    Py.div (l_beta_a l * l_aa l) (l_theta_pl l) = Some (l_a_coll l);
  run_a_growth : l_a_growth l = l_mu_aa l * p F.a;
  run_a_mort : l_a_mort l = M_a fs * p F.a;
  run_a_resp :
    exists q,
      Py.pow (Q10 fs) ((p F.temp - 20) / 10) = Some q /\
      l_a_resp l = q * R20 fs * p F.a;
  run_delta_rho :
    Py.div (l_rho_tot l - p F.density) (p F.density) = Some (l_delta_rho l);
  run_dstar :
    Py.div ((l_rho_tot l - p F.density) * G fs * (2 * l_r_tot l) ^ 3)
           (p F.density * p F.kin_visc ^ 2) = Some (l_dstar l);
  run_w :
    (if Rgt_dec (l_dstar l) 5e9 then Some 1000
     else if Rlt_dec (l_dstar l) 0.05 then Some (l_dstar l ^ 2 * 1.71e-4)
     else
       lg <- Py.log10 (l_dstar l) ;;
       Py.pow 10 (-3.76715 + 1.92944 * lg - 0.09815 * lg ^ 2
                  - 0.00575 * lg ^ 3 + 0.00056 * lg ^ 4))
    = Some (l_w l);
  run_vs_init :
    (if Rgt_dec (l_delta_rho l) 0 then
       Py.pow (G fs * p F.kin_visc * l_w l * l_delta_rho l) (1 / 3)
     else
       c <- Py.pow (G fs * p F.kin_visc * l_w l * (l_delta_rho l * -1)) (1 / 3) ;;
       Some (-1 * c))
    = Some (l_vs_init l);
  run_z0 : l_z0 l = p F.depth + l_vs_init l * p F.dt;
  run_writes : forall f, p' f = Kooi_writes p l f
}.

(** Inputs for which a run of [Kooi] cannot fault: positive constants,
    some ambient algae, a positive plastic radius, a non-negative algal
    cover, and positive viscosities and sea-water density. *)
Record valid (fs : Fieldset) (p : Particle) : Prop := {
  valid_Wt_N : 0 < Wt_N fs;
  valid_V_a : 0 < V_a fs;
  valid_Q10 : 0 < Q10 fs;
  valid_G : 0 < G fs;
  valid_algae : 0 < p F.nd_phy + p F.d_phy;
  valid_r_pl : 0 < p F.r_pl;
  valid_a : 0 <= p F.a;
  valid_sw_visc : 0 < p F.sw_visc;
  valid_kin_visc : 0 < p F.kin_visc;
  valid_density : 0 < p F.density
}.

(** ** The reference configuration *)

(** The field set of the main block: the constants of source lines 321-329
    over the given gridded fields. *)
Definition fieldset_of
  (temperature diatoms non_diatoms productivity salinity upwelling
     : R -> R -> R -> R -> R) : Fieldset :=
  {| M_a := 0.39 / 86400;
     K := 1.0306e-13 / (86400 ^ 2);
     Rho_bf := 1388;
     V_a := 2.0e-16;
     R20 := 0.1 / 86400;
     Q10 := 2;
     Gamma := 1.728e5 / 86400;
     Wt_N := 14.007;
     G := 7.32e10 / (86400 ^ 2);
     cons_temperature := temperature;
     d_phy := diatoms;
     nd_phy := non_diatoms;
     tpp3 := productivity;
     abs_salinity := salinity;
     W := upwelling |}.

(** An ocean with the same water everywhere: 15 degrees, salinity 35,
    some phytoplankton and productivity, no vertical current. *)
Definition uniform_ocean : Fieldset :=
  fieldset_of (fun _ _ _ _ => 15) (fun _ _ _ _ => 0.5) (fun _ _ _ _ => 0.5)
              (fun _ _ _ _ => 1) (fun _ _ _ _ => 35) (fun _ _ _ _ => 0).

(** A particle of the first release class (radius [1e-4], density 920) at
    the release depth, with the water properties already sampled. *)
Definition sampled_particle : Particle :=
  fun f =>
    match f with
    | F.depth => 0.6
    | F.dt => 60
    | F.temp => 15
    | F.density => 1025
    | F.tpp3 => 1
    | F.d_phy => 0.5
    | F.nd_phy => 0.5
    | F.sw_visc => 1.2e-3
    | F.kin_visc => 1.2e-6
    | F.r_pl => 1e-4
    | F.rho_pl => 920
    | F.r_tot => 1e-4
    | F.rho_tot => 920
    | _ => 0
    end.

(** The same particle with other phytoplankton concentrations. *)
Definition with_phy (particle : Particle) (nd d : R) : Particle :=
  setattr (setattr particle F.nd_phy nd) F.d_phy d.

(** The same particle in water without phytoplankton, with the given
    productivity. *)
Definition without_algae (particle : Particle) (productivity : R) : Particle :=
  setattr (with_phy particle 0 0) F.tpp3 productivity.

(** ** The viscosity formulas as the specification writes them *)

Definition spec_mu_w (t : R) : R :=
  4.2844e-5 + 1 / ((0.157 * (t + 64.993) ^ 2) - 91.296).

Definition spec_A (t : R) : R := 1.541 + 1.998e-2 * t - 9.52e-5 * t ^ 2.

Definition spec_B (t : R) : R := 7.974 - 7.561e-2 * t + 4.724e-4 * t ^ 2.

Definition spec_sw_visc (t salinity : R) : R :=
  let S := salinity / 1000 in
  spec_mu_w t * (1 + spec_A t * S + spec_B t * S ^ 2).

Definition spec_kin_visc (t salinity rho_sw : R) : R :=
  spec_sw_visc t salinity / rho_sw.

(** The attributes [Kooi] assigns (source lines 104-107, 127, 132-139). *)
Definition written_by_Kooi (f : F.name) : bool :=
  match f with
  | F.a_coll | F.a_growth | F.a_resp | F.a | F.vs_init | F.depth | F.vs
  | F.rho_tot | F.r_tot | F.delta_rho => true
  | _ => false
  end.

(** ** The other kernels *)

(** The attributes [Kooi] reads (source lines 43-49, 56, 66, 77-87, 107
    and 129-134). *)
Definition read_by_Kooi (f : F.name) : bool :=
  match f with
  | F.depth | F.temp | F.sw_visc | F.kin_visc | F.density | F.a | F.vs
  | F.nd_phy | F.d_phy | F.tpp3 | F.r_pl | F.rho_pl | F.dt => true
  | _ => false
  end.

(** The attributes [Profiles] assigns (source lines 164-175). *)
Definition written_by_Profiles (f : F.name) : bool :=
  match f with
  | F.temp | F.d_phy | F.nd_phy | F.tpp3 | F.sw_visc | F.kin_visc
  | F.w_adv => true
  | _ => false
  end.

(** [periodicBC] (source lines 157-161). *)
Definition periodicBC (fieldset : Fieldset) (particle : Particle) (time : R)
  : Particle :=
  if Rle_dec (particle F.lon) (-180) then
    setattr particle F.lon (particle F.lon + 360)
  else if Rge_dec (particle F.lon) 180 then
    setattr particle F.lon (particle F.lon - 360)
  else particle.

(** The kernels of this file in the order of the kernel chain of source
    line 397, [Profiles] then [Kooi].  The first kernel of the chain,
    [PolyTEOS10_bsq], is library code; it has assigned [particle.density]
    before. *)
Definition Profiles_then_Kooi (fieldset : Fieldset) (particle : Particle)
  (time : R) : option Particle :=
  particle <- Profiles fieldset particle time ;;
  Kooi fieldset particle.

(** The attribute table [Profiles] leaves behind, read off the assignments
    of source lines 164-175, with the viscosities written as the
    specification writes them. *)
Definition Profiles_writes (fs : Fieldset) (p : Particle) (time : R) : Particle :=
  let t := cons_temperature fs time (p F.depth) (p F.lat) (p F.lon) in
  let s := abs_salinity fs time (p F.depth) (p F.lat) (p F.lon) in
  fun f =>
    match f with
    | F.temp => t
    | F.d_phy => d_phy fs time (p F.depth) (p F.lat) (p F.lon)
    | F.nd_phy => nd_phy fs time (p F.depth) (p F.lat) (p F.lon)
    | F.tpp3 => tpp3 fs time (p F.depth) (p F.lat) (p F.lon)
    | F.sw_visc => spec_sw_visc t s
    | F.kin_visc => spec_sw_visc t s / p F.density
    | F.w_adv => W fs time (p F.depth) (p F.lat) (p F.lon)
    | _ => p f
    end.

(** ** The grid search *)

(** The parts of NumPy that [getclosest_ij] uses, for two-dimensional
    arrays of reals. *)
Module Np.

(** An array: its shape and its elements in row-major order. *)
Record ndarray : Type := { shape : nat * nat; flat : list R }.

Definition well_formed (A : ndarray) : Prop :=
  length (flat A) = (fst (shape A) * snd (shape A))%nat.

(** The extent of one axis after broadcasting two arrays, if they can be
    broadcast. *)
Definition broadcast_dim (m n : nat) : option nat :=
  if (m =? n)%nat then Some m
  else if (m =? 1)%nat then Some n
  else if (n =? 1)%nat then Some m
  else None.

(** The element of [A] at [(i, j)] of a shape it is broadcast to: an axis
    of extent 1 is repeated. *)
Definition item (A : ndarray) (i j : nat) : R :=
  nth ((if (fst (shape A) =? 1)%nat then 0 else i) * snd (shape A)
       + (if (snd (shape A) =? 1)%nat then 0 else j))%nat
      (flat A) 0.

Definition tabulate (ny nx : nat) (f : nat -> nat -> R) : ndarray :=
  {| shape := (ny, nx);
     flat := List.map (fun k => f (k / nx)%nat (k mod nx)%nat) (seq 0 (ny * nx)) |}.

(** An operation with a scalar, element by element. *)
Definition map (f : R -> R) (A : ndarray) : ndarray :=
  {| shape := shape A; flat := List.map f (flat A) |}.

(** [A + B]; shapes that cannot be broadcast raise [ValueError]. *)
Definition add (A B : ndarray) : option ndarray :=
  ny <- broadcast_dim (fst (shape A)) (fst (shape B)) ;;
  nx <- broadcast_dim (snd (shape A)) (snd (shape B)) ;;
  Some (tabulate ny nx (fun i j => item A i j + item B i j)).

Fixpoint argmin_from (best : R) (bi i : nat) (l : list R) : nat :=
  match l with
  | [] => bi
  | x :: l' =>
      if Rlt_dec x best then argmin_from x i (S i) l'
      else argmin_from best bi (S i) l'
  end.

(** [A.argmin()]: the flat index of the first smallest element; an empty
    array raises [ValueError]. *)
Definition argmin (A : ndarray) : option nat :=
  match flat A with
  | [] => None
  | x :: l => Some (argmin_from x 0 1 l)
  end.

(** [np.unravel_index(k, shape)]; an index outside the shape raises
    [ValueError]. *)
Definition unravel_index (k : nat) (sh : nat * nat) : option (nat * nat) :=
  if (k <? fst sh * snd sh)%nat then Some ((k / snd sh)%nat, (k mod snd sh)%nat)
  else None.

(** [np.linspace(start, stop, num)]: [num] evenly spaced samples, both end
    points included. *)
Definition linspace (start stop : R) (num : nat) : list R :=
  List.map (fun i => start + INR i * ((stop - start) / INR (num - 1))) (seq 0 num).

(** [np.tile(row, [k, 1])] for a one-dimensional [row]: [k] copies of the
    row, one below the other. *)
Definition tile_rows (row : list R) (k : nat) : ndarray :=
  {| shape := (k, length row); flat := concat (repeat row k) |}.

(** [np.tile(x, [k, m])] for a scalar [x]. *)
Definition tile_scalar (x : R) (k m : nat) : ndarray :=
  {| shape := (k, m); flat := repeat x (k * m) |}.

(** [A.T] *)
Definition transpose (A : ndarray) : ndarray :=
  tabulate (snd (shape A)) (fst (shape A)) (fun i j => item A j i).

(** [A.size] *)
Definition size (A : ndarray) : nat := (fst (shape A) * snd (shape A))%nat.

End Np.

(** [getclosest_ij] (source lines 151-155). *)
Definition getclosest_ij (lats lons : Np.ndarray) (latpt lonpt : R)
  : option (nat * nat) :=
  dist_sq <- Np.add (Np.map (fun x => x ^ 2) (Np.map (fun x => x - latpt) lats))
                    (Np.map (fun x => x ^ 2) (Np.map (fun x => x - lonpt) lons)) ;;
  minindex_flattened <- Np.argmin dist_sq ;;
  Np.unravel_index minindex_flattened (Np.shape lats).

(** The squared distance of grid cell [(i, j)] to the point. *)
Definition dist_sq_at (lats lons : Np.ndarray) (latpt lonpt : R) (i j : nat) : R :=
  (Np.item lats i j - latpt) ^ 2 + (Np.item lons i j - lonpt) ^ 2.

(** A two by two grid: latitudes 10 and 20, longitudes 0 and 5. *)
Definition small_lats : Np.ndarray :=
  {| Np.shape := (2%nat, 2%nat); Np.flat := [10; 10; 20; 20] |}.

Definition small_lons : Np.ndarray :=
  {| Np.shape := (2%nat, 2%nat); Np.flat := [0; 5; 0; 5] |}.

(** A grid without columns. *)
Definition empty_grid : Np.ndarray :=
  {| Np.shape := (3%nat, 0%nat); Np.flat := [] |}.

(** ** The release pattern of the main block *)

(** The regions the command line accepts (source line 209). *)
Inductive region : Set := NPSG | EqPac | Med | SO | SubAtl.

(** One branch of source lines 338-353: the latitudes tiled and
    transposed, the longitudes tiled. *)
Definition release_pattern (lat0 lat1 lon0 lon1 : R) (n : nat)
  : Np.ndarray * Np.ndarray :=
  let lat_release0 := Np.tile_rows (Np.linspace lat0 lat1 n) n in
  let lat_release := Np.transpose lat_release0 in
  let lon_release := Np.tile_rows (Np.linspace lon0 lon1 n) n in
  (lat_release, lon_release).

(** [lat_release] and [lon_release] after source lines 338-353.  The chain
    of [if] and [elif] has no branch for the region [SO], which leaves both
    names unbound: their first use, in source line 363, raises
    [NameError]. *)
Definition release (r : region) : option (Np.ndarray * Np.ndarray) :=
  match r with
  | NPSG => Some (release_pattern 28 36 (-135) (-143) 5)
  | EqPac => Some (release_pattern (-4) 4 (-140) (-148) 5)
  | Med => Some (release_pattern 30 40 21 11 5)
  | SubAtl => Some (release_pattern 10 50 (-60) (-20) 10)
  | SO => None
  end.

(** [z_release] (source line 355). *)
Definition z_release : Np.ndarray := Np.tile_scalar 0.6 10 10.

(** * Properties *)

(** ** The error monad *)

Lemma bind_Some {A B : Type} (m : option A) (k : A -> option B) (y : B) :
  bind m k = Some y -> exists x, m = Some x /\ k x = Some y.
Proof.
  destruct m as [x|]; simpl; intros H; [now exists x | discriminate].
Qed.

(** ** Proof tools *)

(** Reading an attribute through a chain of assignments. *)
Ltac attr_simpl :=
  repeat match goal with
  | |- context [setattr ?p ?f ?x ?g] =>
      let b := eval cbv in (if F.eq_dec g f then true else false) in
      match b with
      | true => change (setattr p f x g) with x
      | false => change (setattr p f x g) with (p g)
      end
  end.

Ltac attr_simpl_in H :=
  repeat match type of H with
  | context [setattr ?p ?f ?x ?g] =>
      let b := eval cbv in (if F.eq_dec g f then true else false) in
      match b with
      | true => change (setattr p f x g) with x in H
      | false => change (setattr p f x g) with (p g) in H
      end
  end.

Ltac kooi_inv H :=
  unfold Kooi_body in H; cbv beta zeta in H;
  repeat (apply bind_Some in H; destruct H as (? & ? & H); cbv beta zeta in H);
  attr_simpl_in H.

Ltac locals_simpl :=
  cbn [l_aa l_mu_n l_mu_aa l_theta_pl l_r_a l_v_tot l_t_bf l_r_tot l_rho_tot
       l_beta_a l_a_coll l_a_growth l_a_mort l_a_resp l_delta_rho l_dstar l_w
       l_vs_init l_z0 Kooi_writes].

(** ** Facts about the Python operations *)

Lemma div_Some (x y : R) : y <> 0 -> Py.div x y = Some (x / y).
Proof.
  intros Hy. unfold Py.div. destruct (Req_dec_T y 0); [contradiction | reflexivity].
Qed.

Lemma div_zero (x y : R) : y = 0 -> Py.div x y = None.
Proof.
  intros Hy. unfold Py.div. destruct (Req_dec_T y 0); [reflexivity | contradiction].
Qed.

Lemma div_inv (x y q : R) : Py.div x y = Some q -> y <> 0 /\ q = x / y.
Proof.
  unfold Py.div. destruct (Req_dec_T y 0); [discriminate |].
  intros H. injection H as <-. now split.
Qed.

Lemma pow_pos (x y : R) : 0 < x -> Py.pow x y = Some (Rpower x y).
Proof.
  intros Hx. unfold Py.pow. destruct (Rlt_dec 0 x); [reflexivity | contradiction].
Qed.

Lemma pow_zero (y : R) : 0 < y -> Py.pow 0 y = Some 0.
Proof.
  intros Hy. unfold Py.pow.
  destruct (Rlt_dec 0 0); [lra |].
  destruct (Req_dec_T 0 0); [| lra].
  destruct (Rlt_dec 0 y); [reflexivity | contradiction].
Qed.

Lemma Rpower_pos (x y : R) : 0 < Rpower x y.
Proof. unfold Rpower. apply exp_pos. Qed.

(** A non-negative base and a positive exponent never fault, and the power
    has the sign of the base. *)
Lemma pow_nonneg (x y : R) :
  0 <= x -> 0 < y ->
  exists c, Py.pow x y = Some c /\ 0 <= c /\ (0 < x -> 0 < c) /\ (x = 0 -> c = 0).
Proof.
  intros [Hx | <-] Hy.
  - exists (Rpower x y). rewrite pow_pos by assumption.
    pose proof (Rpower_pos x y). repeat split; try lra.
  - exists 0. rewrite pow_zero by assumption. repeat split; lra.
Qed.

Lemma Int_part_IZR (z : Z) : Int_part (IZR z) = z.
Proof. symmetry. apply Int_part_spec. lra. Qed.

(** The literal exponents [2.], [3.] and [4.] of the source: the power is
    the iterated product, whatever the sign of the base. *)
Lemma pow_literal (x : R) (n : positive) :
  Py.pow x (IZR (Zpos n)) = Some (x ^ Pos.to_nat n).
Proof.
  unfold Py.pow.
  assert (Hn : 0 < IZR (Zpos n)) by (apply IZR_lt; lia).
  destruct (Rlt_dec 0 x) as [Hx | Hx].
  - rewrite <- powerRZ_Rpower by assumption. reflexivity.
  - destruct (Req_dec_T x 0) as [-> | Hx0].
    + destruct (Rlt_dec 0 (IZR (Zpos n))); [| contradiction].
      rewrite pow_i; [reflexivity | apply Pos2Nat.is_pos].
    + rewrite Int_part_IZR.
      destruct (Req_dec_T (IZR (Zpos n)) (IZR (Zpos n))); [reflexivity | congruence].
Qed.

Lemma pow_literal_2 (x : R) : Py.pow x 2 = Some (x ^ 2).
Proof. exact (pow_literal x 2). Qed.

Lemma pow_literal_3 (x : R) : Py.pow x 3 = Some (x ^ 3).
Proof. exact (pow_literal x 3). Qed.

Lemma pow_literal_4 (x : R) : Py.pow x 4 = Some (x ^ 4).
Proof. exact (pow_literal x 4). Qed.

Lemma third_not_integral : IZR (Int_part (1 / 3)) <> 1 / 3.
Proof.
  intros H. destruct (base_Int_part (1 / 3)) as [Hle Hgt].
  assert (H0 : (Int_part (1 / 3) < 1)%Z) by (apply lt_IZR; lra).
  assert (H1 : (-1 < Int_part (1 / 3))%Z) by (apply lt_IZR; lra).
  assert (H2 : Int_part (1 / 3) = 0%Z) by lia.
  rewrite H2 in H. lra.
Qed.

(** A cube root [x ** (1./3.)] that does not fault has a non-negative
    base. *)
Lemma pow_third_inv (x c : R) :
  Py.pow x (1 / 3) = Some c ->
  (0 < x /\ c = Rpower x (1 / 3)) \/ (x = 0 /\ c = 0).
Proof.
  unfold Py.pow.
  destruct (Rlt_dec 0 x) as [Hx | Hx].
  - intros H. injection H as <-. left. now split.
  - destruct (Req_dec_T x 0) as [-> | Hx0].
    + destruct (Rlt_dec 0 (1 / 3)); [| lra].
      intros H. injection H as <-. right. now split.
    + destruct (Req_dec_T (IZR (Int_part (1 / 3))) (1 / 3)) as [E | E];
        [now apply third_not_integral in E | discriminate].
Qed.

(** The cube root of a cube. *)
Lemma Rpower_cube_third (x : R) : 0 < x -> Rpower (x ^ 3) (1 / 3) = x.
Proof.
  intros Hx.
  replace (x ^ 3) with (Rpower x 3).
  - rewrite Rpower_mult. replace (3 * (1 / 3)) with 1 by lra.
    now apply Rpower_1.
  - rewrite <- (Rpower_pow 3 x Hx). f_equal. simpl. lra.
Qed.

(** Checks of the operations on concrete numbers. *)

Example div_by_zero : Py.div 1 0 = None.
Proof. now apply div_zero. Qed.

Example div_exact : Py.div 6 3 = Some 2.
Proof. rewrite div_Some by lra. f_equal. lra. Qed.

Example cube_root_of_8 : Py.pow (2 ^ 3) (1 / 3) = Some 2.
Proof.
  rewrite pow_pos by (apply pow_lt; lra).
  f_equal. apply Rpower_cube_third. lra.
Qed.

Example cube_root_of_negative : Py.pow (-8) (1 / 3) = None.
Proof.
  unfold Py.pow.
  destruct (Rlt_dec 0 (-8)); [lra |].
  destruct (Req_dec_T (-8) 0); [lra |].
  destruct (Req_dec_T (IZR (Int_part (1 / 3))) (1 / 3)) as [E | E];
    [now apply third_not_integral in E | reflexivity].
Qed.

Example negative_base_squared : Py.pow (-3) 2 = Some 9.
Proof. rewrite pow_literal_2. f_equal. simpl. lra. Qed.

Example band_surface : out_of_band 0.6 = true.
Proof. unfold out_of_band. destruct (Rle_dec 0.6 0.6); [reflexivity | lra]. Qed.

Example band_floor : out_of_band 4000 = true.
Proof.
  unfold out_of_band. destruct (Rle_dec 4000 0.6); [reflexivity |].
  destruct (Rge_dec 4000 4000); [reflexivity | lra].
Qed.

Example band_inside : out_of_band 100 = false.
Proof.
  unfold out_of_band. destruct (Rle_dec 100 0.6); [lra |].
  destruct (Rge_dec 100 4000); [lra | reflexivity].
Qed.

Lemma w_completes (dstar : R) :
  exists w,
    (if Rgt_dec dstar 5e9 then Some 1000
     else if Rlt_dec dstar 0.05 then Some (dstar ^ 2 * 1.71e-4)
     else
       lg <- Py.log10 dstar ;;
       Py.pow 10 (-3.76715 + 1.92944 * lg - 0.09815 * lg ^ 2
                  - 0.00575 * lg ^ 3 + 0.00056 * lg ^ 4))
    = Some w /\ 0 <= w /\ (dstar <> 0 -> 0 < w).
Proof.
  destruct (Rgt_dec dstar 5e9) as [H1 | H1].
  - exists 1000. repeat split; lra.
  - destruct (Rlt_dec dstar 0.05) as [H2 | H2].
    + exists (dstar ^ 2 * 1.71e-4). repeat split.
      * pose proof (pow2_ge_0 dstar). nra.
      * intros Hd. assert (0 < dstar ^ 2) by (apply pow_2_n_neq_R0 || (simpl; nra)). nra.
    + unfold Py.log10. destruct (Rlt_dec 0 dstar) as [H3 | H3]; [| lra].
      cbn [bind]. rewrite pow_pos by lra.
      eexists. split; [reflexivity |].
      pose proof (Rpower_pos 10 (-3.76715 + 1.92944 * (ln dstar / ln 10) - 0.09815 * (ln dstar / ln 10) ^ 2
                  - 0.00575 * (ln dstar / ln 10) ^ 3 + 0.00056 * (ln dstar / ln 10) ^ 4)).
      split; [lra | intros _; lra].
Qed.

Lemma vs_completes (g kin_visc w delta_rho : R) :
  0 < g -> 0 < kin_visc -> 0 <= w ->
  exists vs,
    (if Rgt_dec delta_rho 0 then Py.pow (g * kin_visc * w * delta_rho) (1 / 3)
     else
       c <- Py.pow (g * kin_visc * w * (delta_rho * -1)) (1 / 3) ;;
       Some (-1 * c))
    = Some vs.
Proof.
  intros Hg Hk Hw.
  assert (Hgk : 0 < g * kin_visc) by nra.
  destruct (Rgt_dec delta_rho 0) as [Hd | Hd].
  - destruct (pow_nonneg (g * kin_visc * w * delta_rho) (1 / 3)) as (c & Hc & _);
      [apply Rmult_le_pos; [apply Rmult_le_pos |]; lra | lra |].
    exists c. exact Hc.
  - destruct (pow_nonneg (g * kin_visc * w * (delta_rho * -1)) (1 / 3)) as (c & Hc & _);
      [apply Rmult_le_pos; [apply Rmult_le_pos |]; lra | lra |].
    exists (-1 * c). rewrite Hc. reflexivity.
Qed.

Lemma stokes_divisor_nonzero (sw_visc r : R) :
  0 < sw_visc -> 0 < r -> 6 * PI * sw_visc * r <> 0.
Proof.
  intros Hs Hr. pose proof PI_RGT_0 as Hpi.
  assert (0 < 6 * PI) by lra.
  assert (0 < 6 * PI * sw_visc) by now apply Rmult_lt_0_compat.
  apply Rgt_not_eq. now apply Rmult_lt_0_compat.
Qed.

Lemma Kooi_completes fs p :
  valid fs p -> exists l p', Kooi_body fs p = Some (l, p').
Proof.
  intros [HW HV HQ HG Hal Hr Ha Hsw Hkv Hrho].
  unfold Kooi_body. cbv zeta.
  pose proof PI_RGT_0 as Hpi.
  assert (Hn2 : 0 < (p F.nd_phy + p F.d_phy) * Wt_N fs / 356.04e-9).
  { apply Rdiv_lt_0_compat; [nra | lra]. }
  destruct (Rlt_dec ((p F.nd_phy + p F.d_phy) * Wt_N fs / 356.04e-9) 0) as [Hneg | _];
    [lra |].
  rewrite div_Some by lra. cbn [bind].
  rewrite (pow_pos (3 / 4 * (V_a fs / PI)))
    by (apply Rmult_lt_0_compat; [lra | now apply Rdiv_lt_0_compat]).
  cbn [bind]. set (r_a := Rpower (3 / 4 * (V_a fs / PI)) (1 / 3)).
  assert (Hra : 0 < r_a) by apply Rpower_pos.
  assert (Hr2 : 0 < p F.r_pl ^ 2) by now apply pow_lt.
  assert (Hr3 : 0 < p F.r_pl ^ 3) by now apply pow_lt.
  assert (Hth : 0 < 4 * PI * p F.r_pl ^ 2)
    by (apply Rmult_lt_0_compat; [lra | assumption]).
  assert (Hvt : 0 < (V_a fs * p F.a * (4 * PI * p F.r_pl ^ 2)
                     + 4 / 3 * PI * p F.r_pl ^ 3) * (3 / (4 * PI))).
  { apply Rmult_lt_0_compat.
    - apply Rplus_le_lt_0_compat.
      + apply Rmult_le_pos; [apply Rmult_le_pos |]; lra.
      + apply Rmult_lt_0_compat; [lra | assumption].
    - apply Rdiv_lt_0_compat; lra. }
  rewrite pow_pos by exact Hvt. cbn [bind].
  set (c := Rpower _ (1 / 3)).
  assert (Hc : 0 < c) by apply Rpower_pos.
  assert (Hrt : 0 < p F.r_pl + (c - p F.r_pl)) by lra.
  rewrite div_Some by (apply pow_nonzero; lra). cbn [bind].
  rewrite div_Some by now apply stokes_divisor_nonzero.
  cbn [bind].
  rewrite div_Some by now apply stokes_divisor_nonzero.
  cbn [bind].
  rewrite div_Some by lra. cbn [bind].
  rewrite pow_pos by exact HQ. cbn [bind].
  rewrite div_Some by lra. cbn [bind].
  rewrite div_Some
    by (apply Rgt_not_eq; apply Rmult_lt_0_compat; [lra | now apply pow_lt]).
  cbn [bind].
  match goal with
  | |- context [Rgt_dec ?d 5e9] =>
      destruct (w_completes d) as (w & -> & Hw & _)
  end.
  cbn [bind].
  match goal with
  | |- context [Rgt_dec ?d 0] =>
      destruct (vs_completes (G fs) (p F.kin_visc) w d HG Hkv Hw) as (vs & ->)
  end.
  cbn [bind].
  match goal with
  | |- context [out_of_band ?z0] => destruct (out_of_band z0)
  end; eexists; eexists; reflexivity.
Qed.

(** ** Inversion of a completed run *)

Lemma Kooi_body_run fs p l p' :
  Kooi_body fs p = Some (l, p') -> Kooi_run fs p l p'.
Proof.
  intros H. kooi_inv H.
  rename x into mu_n2, x0 into r_a, x1 into c, x2 into rho_tot, x3 into d_pl,
    x4 into d_a, x5 into a_coll, x6 into q, x7 into delta_rho, x8 into dstar,
    x9 into w, x10 into vs.
  destruct (out_of_band (p F.depth + vs * p F.dt)) eqn:Hband;
    injection H as <- <-;
    (constructor; locals_simpl; try reflexivity; try assumption;
     [ exists mu_n2; now split
     | exists c; now split
     | exists d_pl, d_a; now repeat split
     | exists q; now split
     | intros f; destruct f; unfold Kooi_writes; locals_simpl; attr_simpl;
       rewrite ?Hband; reflexivity ]).
Qed.

Lemma Kooi_inv fs p p' :
  Kooi fs p = Some p' -> exists l, Kooi_body fs p = Some (l, p').
Proof.
  unfold Kooi. destruct (Kooi_body fs p) as [[l q] |]; simpl; [| discriminate].
  intros H. injection H as <-. now exists l.
Qed.

Lemma Kooi_run_of fs p p' :
  Kooi fs p = Some p' -> exists l, Kooi_run fs p l p'.
Proof.
  intros H. destruct (Kooi_inv _ _ _ H) as [l Hl].
  exists l. now apply Kooi_body_run.
Qed.

(** A valid input completes the step. *)
Lemma Kooi_total fs p : valid fs p -> exists p', Kooi fs p = Some p'.
Proof.
  intros Hv. destruct (Kooi_completes fs p Hv) as (l & p' & H).
  exists p'. unfold Kooi. now rewrite H.
Qed.

Lemma uniform_ocean_valid : valid uniform_ocean sampled_particle.
Proof. constructor; simpl; lra. Qed.

Lemma sampled_with_a_valid (a0 : R) :
  0 <= a0 -> valid uniform_ocean (setattr sampled_particle F.a a0).
Proof. intros Ha. constructor; attr_simpl; simpl; lra. Qed.

(** ** The unguarded division by the ambient algal concentration *)

(** Source line 69 divides by [aa] whatever its value: a run in water
    without ambient algae (a zero or negative phytoplankton sample, clamped
    to [aa = 0] by lines 60-63) faults there. *)
Lemma Kooi_body_no_algae fs p :
  (p F.nd_phy + p F.d_phy) * Wt_N fs / 356.04e-9 <= 0 ->
  Kooi_body fs p = None.
Proof.
  intros Hn. unfold Kooi_body. cbv zeta.
  destruct (Rlt_dec ((p F.nd_phy + p F.d_phy) * Wt_N fs / 356.04e-9) 0) as [Hneg | Hpos].
  - rewrite div_zero by reflexivity. reflexivity.
  - rewrite div_zero by lra. reflexivity.
Qed.

Lemma Kooi_no_algae fs p :
  (p F.nd_phy + p F.d_phy) * Wt_N fs / 356.04e-9 <= 0 -> Kooi fs p = None.
Proof.
  intros Hn. unfold Kooi. now rewrite Kooi_body_no_algae.
Qed.

(** A completed run had a positive ambient algal concentration. *)
Lemma run_aa_pos fs p l p' : Kooi_run fs p l p' -> 0 < l_aa l.
Proof.
  intros Hr. destruct (run_mu_aa _ _ _ _ Hr) as (mu_n2 & Hdiv & _).
  apply div_inv in Hdiv. destruct Hdiv as [Hne _].
  pose proof (run_aa _ _ _ _ Hr) as Haa.
  destruct (Rlt_dec ((p F.nd_phy + p F.d_phy) * Wt_N fs / 356.04e-9) 0); lra.
Qed.

(** C1: in water without ambient algae ([aa = 0]) the step has no result
    in the model, whatever the productivity: the division [mu_n / aa] of
    source line 69 is not guarded (it raises on plain floats and gives an
    infinity or a NaN in a run), so the guarded growth rate [mu_aa = 0] of
    the claim is not what the code computes. *)
Theorem Kooi_zero_algae_division_fault :
  forall fs p productivity, Kooi fs (without_algae p productivity) = None.
Proof.
  intros fs p productivity. apply Kooi_no_algae.
  unfold without_algae, with_phy. attr_simpl. lra.
Qed.

(** C9: scenario 1 (radius [1e-4], plastic density 920, no attached algae,
    depth 0.6, sea-water density 1025, 15 degrees, no ambient phytoplankton,
    no productivity, time step 60) has no result in the model: source line
    69 divides zero by zero (an exception on plain floats, a NaN in a run
    that then reaches [a]), so the attached-algae density is not left
    unchanged at 0. *)
Theorem scenario_1_division_fault :
  sampled_particle F.r_pl = 1e-4 /\ sampled_particle F.rho_pl = 920 /\
  sampled_particle F.a = 0 /\ sampled_particle F.depth = 0.6 /\
  sampled_particle F.density = 1025 /\ sampled_particle F.temp = 15 /\
  sampled_particle F.dt = 60 /\
  Kooi uniform_ocean (without_algae sampled_particle 0) = None.
Proof.
  repeat split; try reflexivity.
  apply Kooi_no_algae. unfold without_algae, with_phy. attr_simpl. lra.
Qed.

(** ** The depth clamp *)

Lemma out_of_band_spec (z0 : R) :
  out_of_band z0 = true <-> z0 <= 0.6 \/ z0 >= 4000.
Proof.
  unfold out_of_band.
  destruct (Rle_dec z0 0.6) as [H1 | H1]; [tauto |].
  destruct (Rge_dec z0 4000) as [H2 | H2]; [tauto |].
  split; [discriminate | tauto].
Qed.

Lemma Kooi_run_vs_init fs p l p' :
  Kooi_run fs p l p' -> p' F.vs_init = l_vs_init l.
Proof. intros Hr. now rewrite (run_writes _ _ _ _ Hr). Qed.

(** C2: with [z0 = z + vs * dt] for the prior depth [z] and the newly
    computed settling velocity [vs] (recorded as [vs_init]): when
    [z0 <= 0.6] or [z0 >= 4000] the returned depth is exactly 0.6 and the
    returned velocity exactly 0, also on a floor violation; otherwise the
    returned depth is exactly [z + vs * dt] and the velocity is [vs]. *)
Theorem depth_clamp_exact fs p p' :
  Kooi fs p = Some p' ->
  let z0 := p F.depth + p' F.vs_init * p F.dt in
  (z0 <= 0.6 \/ z0 >= 4000 -> p' F.depth = 0.6 /\ p' F.vs = 0) /\
  (~ (z0 <= 0.6 \/ z0 >= 4000) ->
   p' F.depth = p F.depth + p' F.vs_init * p F.dt /\ p' F.vs = p' F.vs_init).
Proof.
  intros H z0. destruct (Kooi_run_of _ _ _ H) as [l Hr].
  pose proof (Kooi_run_vs_init _ _ _ _ Hr) as Hvs.
  pose proof (run_z0 _ _ _ _ Hr) as Hz0.
  assert (Hz : l_z0 l = z0) by (unfold z0; now rewrite Hvs).
  rewrite !(run_writes _ _ _ _ Hr). unfold Kooi_writes. rewrite Hz.
  split; intros Hb.
  - apply out_of_band_spec in Hb. rewrite Hb. now split.
  - destruct (out_of_band z0) eqn:E.
    + apply out_of_band_spec in E. contradiction.
    + now split.
Qed.

Lemma depth_clamp_exact_witness :
  exists p',
    Kooi uniform_ocean sampled_particle = Some p' /\
    let z0 := sampled_particle F.depth + p' F.vs_init * sampled_particle F.dt in
    (z0 <= 0.6 \/ z0 >= 4000 -> p' F.depth = 0.6 /\ p' F.vs = 0) /\
    (~ (z0 <= 0.6 \/ z0 >= 4000) ->
     p' F.depth = sampled_particle F.depth + p' F.vs_init * sampled_particle F.dt
     /\ p' F.vs = p' F.vs_init).
Proof.
  destruct (Kooi_total _ _ uniform_ocean_valid) as [p' E].
  exists p'. split; [exact E |].
  exact (depth_clamp_exact uniform_ocean sampled_particle p' E).
Defined.

(** C3: the depth returned by one step lies in the closed interval
    [0.6, 4000], for every prior depth and every computed settling
    velocity. *)
Theorem depth_in_band fs p p' :
  Kooi fs p = Some p' -> 0.6 <= p' F.depth <= 4000.
Proof.
  intros H. destruct (Kooi_run_of _ _ _ H) as [l Hr].
  rewrite (run_writes _ _ _ _ Hr). unfold Kooi_writes.
  rewrite <- (run_z0 _ _ _ _ Hr).
  unfold out_of_band.
  destruct (Rle_dec (l_z0 l) 0.6) as [H1 | H1]; [lra |].
  destruct (Rge_dec (l_z0 l) 4000) as [H2 | H2]; lra.
Qed.

Lemma depth_in_band_witness :
  exists p',
    Kooi uniform_ocean sampled_particle = Some p' /\ 0.6 <= p' F.depth <= 4000.
Proof.
  destruct (Kooi_total _ _ uniform_ocean_valid) as [p' E].
  exists p'. split; [exact E |].
  exact (depth_in_band uniform_ocean sampled_particle p' E).
Defined.

(** ** The attached-algae update *)

Lemma Kooi_writes_frame p l f :
  written_by_Kooi f = false -> Kooi_writes p l f = p f.
Proof. destruct f; simpl; intros H; (discriminate || reflexivity). Qed.

(** C6: the attached-algae density advances by one explicit Euler step,
    [a_new = a + dt * (a_coll + a_growth - a_mort - a_resp)], with
    [a_coll = beta_a * aa / theta_pl], [a_growth = mu_aa * a],
    [a_mort = m_a * a] and [a_resp = q10 ** ((t - 20) / 10) * r20 * a];
    [a_coll], [a_growth] and [a_resp] are written to the particle, and no
    attribute other than the ten assigned by the kernel changes, so
    [a_mort] is exposed nowhere. *)
Theorem attached_algae_euler_step fs p l p' :
  Kooi_body fs p = Some (l, p') ->
  p' F.a =
    p F.a + p F.dt * (l_a_coll l + l_a_growth l - l_a_mort l - l_a_resp l) /\
  l_a_coll l = l_beta_a l * l_aa l / l_theta_pl l /\
  l_a_growth l = l_mu_aa l * p F.a /\
  l_a_mort l = M_a fs * p F.a /\
  (exists q,
     Py.pow (Q10 fs) ((p F.temp - 20) / 10) = Some q /\
     l_a_resp l = q * R20 fs * p F.a) /\
  (0 < Q10 fs ->
   l_a_resp l = Rpower (Q10 fs) ((p F.temp - 20) / 10) * R20 fs * p F.a) /\
  p' F.a_coll = l_a_coll l /\
  p' F.a_growth = l_a_growth l /\
  p' F.a_resp = l_a_resp l /\
  (forall f, written_by_Kooi f = false -> p' f = p f).
Proof.
  intros H. apply Kooi_body_run in H.
  destruct H as [_ _ _ _ _ _ _ _ _ _ Hcoll Hgrowth Hmort Hresp _ _ _ _ _ Hw].
  repeat split.
  - rewrite Hw. cbn [Kooi_writes]. lra.
  - apply div_inv in Hcoll. tauto.
  - exact Hgrowth.
  - exact Hmort.
  - exact Hresp.
  - intros HQ. destruct Hresp as (q & Hq & ->).
    rewrite pow_pos in Hq by exact HQ. now injection Hq as <-.
  - now rewrite Hw.
  - now rewrite Hw.
  - now rewrite Hw.
  - intros f Hf. rewrite Hw. now apply Kooi_writes_frame.
Qed.

Lemma attached_algae_euler_step_witness :
  exists l p',
    Kooi_body uniform_ocean sampled_particle = Some (l, p') /\
    p' F.a =
      sampled_particle F.a
      + sampled_particle F.dt
        * (l_a_coll l + l_a_growth l - l_a_mort l - l_a_resp l) /\
    p' F.a_coll = l_a_coll l.
Proof.
  destruct (Kooi_completes _ _ uniform_ocean_valid) as (l & p' & E).
  exists l, p'. split; [exact E |].
  pose proof (attached_algae_euler_step uniform_ocean sampled_particle l p' E)
    as (Ha & _ & _ & _ & _ & _ & Hc & _).
  split; [exact Ha | exact Hc].
Defined.

(** ** The clamp does not revert the step *)

Lemma Kooi_body_other_depth fs p l p' z :
  Kooi_body fs p = Some (l, p') ->
  exists l2 p2',
    Kooi_body fs (setattr p F.depth z) = Some (l2, p2') /\
    forall f, f <> F.depth -> f <> F.vs -> p2' f = p' f.
Proof.
  intros H. kooi_inv H.
  unfold Kooi_body. cbv beta zeta. attr_simpl.
  rewrite H0; cbn [bind]. rewrite H1; cbn [bind]. rewrite H2; cbn [bind].
  rewrite H3; cbn [bind]. rewrite H4; cbn [bind]. rewrite H5; cbn [bind].
  rewrite H6; cbn [bind]. rewrite H7; cbn [bind]. rewrite H8; cbn [bind].
  rewrite H9; cbn [bind]. rewrite H10; cbn [bind]. rewrite H11; cbn [bind].
  attr_simpl.
  destruct (out_of_band (p F.depth + x10 * p F.dt));
    destruct (out_of_band (z + x10 * p F.dt));
    injection H as <- <-;
    (eexists; eexists; split; [reflexivity |]);
    intros f Hd Hv; destruct f; attr_simpl; try reflexivity; congruence.
Qed.

(** C10: the clamp does not revert the step.  The attached-algae density
    and the diagnostics [a_coll], [a_growth], [a_resp], [vs_init],
    [rho_tot], [r_tot] and [delta_rho] hold the values computed before the
    band test whether or not the clamp fires, and a run from any other
    prior depth, clamped or not, returns the same particle except for [vs]
    and [depth]. *)
Theorem clamp_keeps_committed_updates fs p l p' :
  Kooi_body fs p = Some (l, p') ->
  (p' F.a =
     p F.a + (l_a_coll l + l_a_growth l - l_a_mort l - l_a_resp l) * p F.dt /\
   p' F.a_coll = l_a_coll l /\
   p' F.a_growth = l_a_growth l /\
   p' F.a_resp = l_a_resp l /\
   p' F.vs_init = l_vs_init l /\
   p' F.rho_tot = l_rho_tot l /\
   p' F.r_tot = l_r_tot l /\
   p' F.delta_rho = l_delta_rho l) /\
  (p' F.vs = (if out_of_band (l_z0 l) then 0 else l_vs_init l) /\
   p' F.depth =
     (if out_of_band (l_z0 l) then 0.6 else p F.depth + l_vs_init l * p F.dt)) /\
  (forall z,
     exists l2 p2',
       Kooi_body fs (setattr p F.depth z) = Some (l2, p2') /\
       forall f, f <> F.depth -> f <> F.vs -> p2' f = p' f).
Proof.
  intros H. split; [| split].
  - apply Kooi_body_run in H. rewrite !(run_writes _ _ _ _ H).
    cbn [Kooi_writes]. repeat split; reflexivity.
  - apply Kooi_body_run in H. rewrite !(run_writes _ _ _ _ H).
    cbn [Kooi_writes]. split; reflexivity.
  - intros z. now apply Kooi_body_other_depth with (l := l).
Qed.

Lemma clamp_keeps_committed_updates_witness :
  exists l p',
    Kooi_body uniform_ocean sampled_particle = Some (l, p') /\
    p' F.a_coll = l_a_coll l /\
    (forall z,
       exists l2 p2',
         Kooi_body uniform_ocean (setattr sampled_particle F.depth z)
         = Some (l2, p2') /\
         forall f, f <> F.depth -> f <> F.vs -> p2' f = p' f).
Proof.
  destruct (Kooi_completes _ _ uniform_ocean_valid) as (l & p' & E).
  exists l, p'. split; [exact E |].
  pose proof (clamp_keeps_committed_updates uniform_ocean sampled_particle l p' E)
    as ((_ & Hc & _) & _ & Hz).
  split; [exact Hc | exact Hz].
Defined.

(** ** The geometry of a completed run *)

(** In a completed run the total radius is the real cube root of a positive
    number, hence positive: a zero radius faults in the division of source
    line 87, a negative volume in the cube root of line 83. *)
Lemma run_r_tot_pos fs p l p' :
  Kooi_run fs p l p' ->
  0 < l_v_tot l * (3 / (4 * PI)) /\
  l_r_tot l = Rpower (l_v_tot l * (3 / (4 * PI))) (1 / 3) /\
  0 < l_r_tot l.
Proof.
  intros Hr. rewrite (run_r_tot _ _ _ _ Hr).
  pose proof (run_rho_tot _ _ _ _ Hr) as Hd.
  apply div_inv in Hd. destruct Hd as [Hd _].
  destruct (run_t_bf _ _ _ _ Hr) as (c & Hc & Ht). rewrite Ht in *.
  apply pow_third_inv in Hc. destruct Hc as [[Hv ->] | [_ ->]].
  - pose proof (Rpower_pos (l_v_tot l * (3 / (4 * PI))) (1 / 3)).
    repeat split; [exact Hv | lra | lra].
  - exfalso. apply Hd.
    replace (p F.r_pl + (0 - p F.r_pl)) with 0 by lra. simpl. lra.
Qed.

(** Likewise the algal cell has a positive volume and radius: a zero
    radius faults in the division of source line 90. *)
Lemma run_r_a_pos fs p l p' :
  Kooi_run fs p l p' -> 0 < V_a fs /\ 0 < l_r_a l.
Proof.
  intros Hr. pose proof PI_RGT_0 as Hpi.
  destruct (run_beta_a _ _ _ _ Hr) as (d_pl & d_a & _ & Hda & _).
  apply div_inv in Hda. destruct Hda as [Hda _].
  pose proof (run_r_a _ _ _ _ Hr) as Hra.
  apply pow_third_inv in Hra. destruct Hra as [[Hv Hra] | [_ Hra]].
  - split.
    + assert (H : 0 < V_a fs / PI) by lra.
      apply (Rmult_lt_compat_r PI) in H; [| exact Hpi].
      unfold Rdiv in H. rewrite Rmult_assoc, Rinv_l in H by lra. lra.
    + rewrite Hra. apply Rpower_pos.
  - exfalso. apply Hda. rewrite Hra. ring.
Qed.

(** ** The sign of the settling velocity *)

(** The dimensionless velocity is positive in each of its three regimes,
    the regime boundaries [dstar = 0.05] and [dstar = 5e9] included; it
    vanishes only at [dstar = 0]. *)
Lemma w_inv (dstar w : R) :
  (if Rgt_dec dstar 5e9 then Some 1000
   else if Rlt_dec dstar 0.05 then Some (dstar ^ 2 * 1.71e-4)
   else
     lg <- Py.log10 dstar ;;
     Py.pow 10 (-3.76715 + 1.92944 * lg - 0.09815 * lg ^ 2
                - 0.00575 * lg ^ 3 + 0.00056 * lg ^ 4))
  = Some w ->
  0 <= w /\ (dstar <> 0 -> 0 < w).
Proof.
  intros H. destruct (w_completes dstar) as (w0 & H0 & Hw).
  rewrite H in H0. now injection H0 as <-.
Qed.

(** Between the two regime boundaries, both included (the comparisons of
    source lines 113 and 115 are strict), the correlation is the polynomial
    fit. *)
Lemma w_middle_regime (dstar : R) :
  0.05 <= dstar <= 5e9 ->
  (if Rgt_dec dstar 5e9 then Some 1000
   else if Rlt_dec dstar 0.05 then Some (dstar ^ 2 * 1.71e-4)
   else
     lg <- Py.log10 dstar ;;
     Py.pow 10 (-3.76715 + 1.92944 * lg - 0.09815 * lg ^ 2
                - 0.00575 * lg ^ 3 + 0.00056 * lg ^ 4))
  = Some (Rpower 10 (-3.76715 + 1.92944 * (ln dstar / ln 10)
                     - 0.09815 * (ln dstar / ln 10) ^ 2
                     - 0.00575 * (ln dstar / ln 10) ^ 3
                     + 0.00056 * (ln dstar / ln 10) ^ 4)).
Proof.
  intros [Hlo Hhi].
  destruct (Rgt_dec dstar 5e9); [lra |].
  destruct (Rlt_dec dstar 0.05); [lra |].
  unfold Py.log10. destruct (Rlt_dec 0 dstar); [| lra].
  cbn [bind]. now rewrite pow_pos by lra.
Qed.

Lemma vs_sign (g kin_visc w delta_rho vs : R) :
  0 < g -> 0 < kin_visc -> (delta_rho <> 0 -> 0 < w) ->
  (if Rgt_dec delta_rho 0 then Py.pow (g * kin_visc * w * delta_rho) (1 / 3)
   else
     c <- Py.pow (g * kin_visc * w * (delta_rho * -1)) (1 / 3) ;;
     Some (-1 * c))
  = Some vs ->
  (delta_rho = 0 -> vs = 0) /\
  (0 < delta_rho -> 0 < vs) /\
  (delta_rho < 0 -> vs < 0).
Proof.
  intros Hg Hk Hw H.
  assert (Hgk : 0 < g * kin_visc) by now apply Rmult_lt_0_compat.
  destruct (Rgt_dec delta_rho 0) as [Hd | Hd].
  - assert (0 < w) by (apply Hw; lra).
    assert (Hb : 0 < g * kin_visc * w * delta_rho)
      by (apply Rmult_lt_0_compat; [apply Rmult_lt_0_compat |]; lra).
    rewrite pow_pos in H by exact Hb. injection H as <-.
    pose proof (Rpower_pos (g * kin_visc * w * delta_rho) (1 / 3)).
    repeat split; intros; lra.
  - destruct (Req_dec_T delta_rho 0) as [Hz | Hz].
    + replace (g * kin_visc * w * (delta_rho * -1)) with 0 in H
        by (rewrite Hz; ring).
      rewrite pow_zero in H by lra. cbn [bind] in H. injection H as <-.
      repeat split; intros; lra.
    + assert (0 < w) by (apply Hw; lra).
      assert (Hb : 0 < g * kin_visc * w * (delta_rho * -1))
        by (apply Rmult_lt_0_compat; [apply Rmult_lt_0_compat |]; lra).
      rewrite pow_pos in H by exact Hb. cbn [bind] in H. injection H as <-.
      pose proof (Rpower_pos (g * kin_visc * w * (delta_rho * -1)) (1 / 3)).
      repeat split; intros; lra.
Qed.

(** With positive [g], [kin_visc], [rho_sw] and [r_tot], [dstar] is the
    density anomaly times a positive factor. *)
Lemma dstar_of_delta_rho (rho_tot rho_sw g r_tot kin_visc delta_rho dstar : R) :
  0 < g -> 0 < kin_visc -> 0 < rho_sw -> 0 < r_tot ->
  Py.div (rho_tot - rho_sw) rho_sw = Some delta_rho ->
  Py.div ((rho_tot - rho_sw) * g * (2 * r_tot) ^ 3) (rho_sw * kin_visc ^ 2)
  = Some dstar ->
  exists c, 0 < c /\ dstar = delta_rho * c.
Proof.
  intros Hg Hk Hrho Hr Hdelta Hdstar.
  apply div_inv in Hdelta. destruct Hdelta as [_ ->].
  apply div_inv in Hdstar. destruct Hdstar as [_ ->].
  exists (g * (2 * r_tot) ^ 3 / kin_visc ^ 2). split.
  - apply Rdiv_lt_0_compat; [| now apply pow_lt].
    apply Rmult_lt_0_compat; [exact Hg | apply pow_lt; lra].
  - field. split; lra.
Qed.

(** C4: for positive [kin_visc], [rho_sw] and [g] (the total radius
    [r_tot] of a completed run is always positive), the pre-clamp settling
    velocity [vs_init] has the sign of the density anomaly: zero for
    [delta_rho = 0], positive for [delta_rho > 0], negative for
    [delta_rho < 0].  No assumption is made on [dstar]: the three regimes
    of the correlation and their boundaries are all covered, and the
    dimensionless velocity [w] is positive wherever [dstar] is not zero. *)
Theorem settling_velocity_sign fs p l p' :
  Kooi_body fs p = Some (l, p') ->
  0 < p F.kin_visc -> 0 < p F.density -> 0 < G fs ->
  0 < p' F.r_tot /\
  (p' F.delta_rho = 0 -> p' F.vs_init = 0) /\
  (0 < p' F.delta_rho -> 0 < p' F.vs_init) /\
  (p' F.delta_rho < 0 -> p' F.vs_init < 0) /\
  (l_dstar l <> 0 -> 0 < l_w l).
Proof.
  intros H Hk Hrho Hg. apply Kooi_body_run in H.
  destruct (run_r_tot_pos _ _ _ _ H) as (_ & _ & Hr).
  rewrite !(run_writes _ _ _ _ H). cbn [Kooi_writes].
  destruct (dstar_of_delta_rho _ _ _ _ _ _ _ Hg Hk Hrho Hr
              (run_delta_rho _ _ _ _ H) (run_dstar _ _ _ _ H))
    as (c & Hc & Hdstar).
  destruct (w_inv _ _ (run_w _ _ _ _ H)) as [Hw0 Hw].
  assert (Hw' : l_delta_rho l <> 0 -> 0 < l_w l).
  { intros Hd. apply Hw. rewrite Hdstar. apply Rmult_integral_contrapositive.
    split; lra. }
  destruct (vs_sign _ _ _ _ _ Hg Hk Hw' (run_vs_init _ _ _ _ H))
    as (H0 & Hpos & Hneg).
  repeat split; assumption.
Qed.

Lemma settling_velocity_sign_witness :
  exists l p',
    Kooi_body uniform_ocean sampled_particle = Some (l, p') /\
    0 < p' F.r_tot /\
    (p' F.delta_rho = 0 -> p' F.vs_init = 0) /\
    (0 < p' F.delta_rho -> 0 < p' F.vs_init) /\
    (p' F.delta_rho < 0 -> p' F.vs_init < 0) /\
    (l_dstar l <> 0 -> 0 < l_w l).
Proof.
  destruct (Kooi_completes _ _ uniform_ocean_valid) as (l & p' & E).
  exists l, p'. split; [exact E |].
  apply (settling_velocity_sign uniform_ocean sampled_particle l p' E);
    simpl; lra.
Defined.

(** ** The biofilm thickness *)

(** The volume balance in radius units: the cube of the total radius is
    the cube of the plastic radius plus the biofilm term. *)
Lemma volume_balance (v_a a r_pl : R) :
  (v_a * a * (4 * PI * r_pl ^ 2) + 4 / 3 * PI * r_pl ^ 3) * (3 / (4 * PI))
  = r_pl ^ 3 + 3 * v_a * a * r_pl ^ 2.
Proof. pose proof PI_RGT_0. field. lra. Qed.

(** C8: with [a >= 0] and [r_pl > 0], the total radius is at least the
    plastic radius: the biofilm thickness
    [t_bf = (v_tot * 3 / (4 * pi)) ** (1/3) - r_pl], with
    [v_tot = v_a * a * theta_pl + (4/3) * pi * r_pl ** 3], is not
    negative. *)
Theorem biofilm_thickness_nonneg fs p l p' :
  Kooi_body fs p = Some (l, p') ->
  0 <= p F.a -> 0 < p F.r_pl ->
  l_v_tot l = V_a fs * p F.a * l_theta_pl l + 4 / 3 * PI * p F.r_pl ^ 3 /\
  l_theta_pl l = 4 * PI * p F.r_pl ^ 2 /\
  l_t_bf l = Rpower (l_v_tot l * 3 / (4 * PI)) (1 / 3) - p F.r_pl /\
  0 <= l_t_bf l /\
  p F.r_pl <= l_r_tot l /\
  p' F.r_tot = l_r_tot l.
Proof.
  intros H Ha Hr. apply Kooi_body_run in H.
  destruct (run_r_tot_pos _ _ _ _ H) as (Hv & Hrt & _).
  destruct (run_r_a_pos _ _ _ _ H) as (HVa & _).
  pose proof (run_r_tot _ _ _ _ H) as Hsum.
  pose proof (run_v_tot _ _ _ _ H) as Hvt.
  pose proof (run_theta_pl _ _ _ _ H) as Hth.
  assert (Hge : p F.r_pl <= l_r_tot l).
  { rewrite Hrt. rewrite <- (Rpower_cube_third (p F.r_pl) Hr) at 1.
    apply Rle_Rpower_l; [lra |]. split; [now apply pow_lt |].
    rewrite Hvt, Hth, volume_balance.
    assert (0 <= 3 * V_a fs * p F.a * p F.r_pl ^ 2).
    { apply Rmult_le_pos; [apply Rmult_le_pos; lra |].
      apply pow_le. lra. }
    lra. }
  repeat split.
  - exact Hvt.
  - exact Hth.
  - replace (l_v_tot l * 3 / (4 * PI)) with (l_v_tot l * (3 / (4 * PI)))
      by (unfold Rdiv; ring).
    lra.
  - lra.
  - exact Hge.
  - now rewrite (run_writes _ _ _ _ H).
Qed.

Lemma biofilm_thickness_nonneg_witness :
  exists l p',
    Kooi_body uniform_ocean (setattr sampled_particle F.a 1e9) = Some (l, p') /\
    l_v_tot l
    = V_a uniform_ocean * 1e9 * l_theta_pl l + 4 / 3 * PI * 1e-4 ^ 3 /\
    0 <= l_t_bf l /\
    1e-4 <= l_r_tot l /\
    p' F.r_tot = l_r_tot l.
Proof.
  assert (H9 : 0 <= 1e9) by lra.
  destruct (Kooi_completes _ _ (sampled_with_a_valid 1e9 H9)) as (l & p' & E).
  exists l, p'. split; [exact E |].
  assert (Ha : 0 <= setattr sampled_particle F.a 1e9 F.a) by (attr_simpl; lra).
  assert (Hr : 0 < setattr sampled_particle F.a 1e9 F.r_pl)
    by (attr_simpl; simpl; lra).
  pose proof (biofilm_thickness_nonneg uniform_ocean
                (setattr sampled_particle F.a 1e9) l p' E Ha Hr)
    as (Hv & _ & _ & Ht & Hge & Hw).
  repeat split; assumption.
Defined.

(** ** The collision rate *)

(** The encounter kernel is positive for physical inputs: a positive
    Boltzmann constant and viscosity, a temperature above absolute zero and
    a shear rate that is not negative. *)
Lemma run_beta_a_pos fs p l p' :
  Kooi_run fs p l p' ->
  0 < K fs -> -273.16 < p F.temp -> 0 <= Gamma fs -> 0 < p F.sw_visc ->
  0 < l_beta_a l.
Proof.
  intros Hr HK Ht HG Hsw. pose proof PI_RGT_0 as Hpi.
  destruct (run_r_tot_pos _ _ _ _ Hr) as (_ & _ & Hrt).
  destruct (run_r_a_pos _ _ _ _ Hr) as (_ & Hra).
  destruct (run_beta_a _ _ _ _ Hr) as (d_pl & d_a & Hdpl & Hda & ->).
  apply div_inv in Hdpl. destruct Hdpl as [_ ->].
  apply div_inv in Hda. destruct Hda as [_ ->].
  assert (Hnum : 0 < K fs * (p F.temp + 273.16))
    by (apply Rmult_lt_0_compat; lra).
  assert (H6 : 0 < 6 * PI * p F.sw_visc)
    by (apply Rmult_lt_0_compat; lra).
  assert (Hd1 : 0 < K fs * (p F.temp + 273.16) / (6 * PI * p F.sw_visc * l_r_tot l))
    by (apply Rdiv_lt_0_compat; [exact Hnum | now apply Rmult_lt_0_compat]).
  assert (Hd2 : 0 < K fs * (p F.temp + 273.16) / (6 * PI * p F.sw_visc * l_r_a l))
    by (apply Rdiv_lt_0_compat; [exact Hnum | now apply Rmult_lt_0_compat]).
  assert (Hbrown :
    0 < 4 * PI
        * (K fs * (p F.temp + 273.16) / (6 * PI * p F.sw_visc * l_r_tot l)
           + K fs * (p F.temp + 273.16) / (6 * PI * p F.sw_visc * l_r_a l))
        * (l_r_tot l + l_r_a l)).
  { apply Rmult_lt_0_compat; [apply Rmult_lt_0_compat |]; lra. }
  assert (Hshear : 0 <= 1.3 * Gamma fs * (l_r_tot l + l_r_a l) ^ 3).
  { apply Rmult_le_pos; [lra | apply pow_le; lra]. }
  assert (Hset : 0 <= 1 / 2 * PI * l_r_tot l ^ 2 * Rabs (p F.vs)).
  { apply Rmult_le_pos; [| apply Rabs_pos].
    apply Rmult_le_pos; [lra | apply pow_le; lra]. }
  lra.
Qed.

(** C7: with every other input fixed, the encounter kernel [beta_a] and the
    plastic surface [theta_pl] do not depend on the ambient algal
    concentration, and for a positive [beta_a] the collision rate
    [a_coll = beta_a * aa / theta_pl] is strictly increasing in [aa]. *)
Theorem a_coll_increasing fs p nd1 d1 nd2 d2 l1 p1' l2 p2' :
  Kooi_body fs (with_phy p nd1 d1) = Some (l1, p1') ->
  Kooi_body fs (with_phy p nd2 d2) = Some (l2, p2') ->
  0 < l_beta_a l1 ->
  l_aa l1 < l_aa l2 ->
  l_beta_a l2 = l_beta_a l1 /\
  l_theta_pl l2 = l_theta_pl l1 /\
  0 < l_theta_pl l1 /\
  p1' F.a_coll = l_beta_a l1 * l_aa l1 / l_theta_pl l1 /\
  p2' F.a_coll = l_beta_a l2 * l_aa l2 / l_theta_pl l2 /\
  p1' F.a_coll < p2' F.a_coll.
Proof.
  intros H1 H2 Hbeta Haa.
  apply Kooi_body_run in H1. apply Kooi_body_run in H2.
  pose proof PI_RGT_0 as Hpi.
  (* theta_pl *)
  pose proof (run_theta_pl _ _ _ _ H1) as Hth1.
  pose proof (run_theta_pl _ _ _ _ H2) as Hth2.
  unfold with_phy in Hth1, Hth2. attr_simpl_in Hth1. attr_simpl_in Hth2.
  assert (Hth : l_theta_pl l2 = l_theta_pl l1) by congruence.
  (* r_a *)
  pose proof (run_r_a _ _ _ _ H1) as Hra1.
  pose proof (run_r_a _ _ _ _ H2) as Hra2.
  assert (Hra : l_r_a l2 = l_r_a l1) by congruence.
  (* v_tot, t_bf, r_tot *)
  pose proof (run_v_tot _ _ _ _ H1) as Hv1.
  pose proof (run_v_tot _ _ _ _ H2) as Hv2.
  unfold with_phy in Hv1, Hv2. attr_simpl_in Hv1. attr_simpl_in Hv2.
  assert (Hv : l_v_tot l2 = l_v_tot l1) by congruence.
  destruct (run_t_bf _ _ _ _ H1) as (c1 & Hc1 & Ht1).
  destruct (run_t_bf _ _ _ _ H2) as (c2 & Hc2 & Ht2).
  unfold with_phy in Ht1, Ht2. attr_simpl_in Ht1. attr_simpl_in Ht2.
  rewrite Hv in Hc2.
  assert (Hc : c2 = c1) by congruence.
  pose proof (run_r_tot _ _ _ _ H1) as Hr1.
  pose proof (run_r_tot _ _ _ _ H2) as Hr2.
  unfold with_phy in Hr1, Hr2. attr_simpl_in Hr1. attr_simpl_in Hr2.
  assert (Hr : l_r_tot l2 = l_r_tot l1) by (rewrite Hr1, Hr2, Ht1, Ht2, Hc; reflexivity).
  (* beta_a *)
  destruct (run_beta_a _ _ _ _ H1) as (dp1 & da1 & Hdp1 & Hda1 & Hb1).
  destruct (run_beta_a _ _ _ _ H2) as (dp2 & da2 & Hdp2 & Hda2 & Hb2).
  unfold with_phy in Hdp1, Hdp2, Hda1, Hda2, Hb1, Hb2.
  attr_simpl_in Hdp1. attr_simpl_in Hdp2. attr_simpl_in Hda1.
  attr_simpl_in Hda2. attr_simpl_in Hb1. attr_simpl_in Hb2.
  rewrite Hr in Hdp2. rewrite Hra in Hda2.
  assert (Hdp : dp2 = dp1) by congruence.
  assert (Hda : da2 = da1) by congruence.
  assert (Hb : l_beta_a l2 = l_beta_a l1)
    by (rewrite Hb1, Hb2, Hdp, Hda, Hr, Hra; reflexivity).
  (* a_coll *)
  pose proof (run_a_coll _ _ _ _ H1) as Hcoll1.
  pose proof (run_a_coll _ _ _ _ H2) as Hcoll2.
  apply div_inv in Hcoll1. destruct Hcoll1 as [Hne Hcoll1].
  apply div_inv in Hcoll2. destruct Hcoll2 as [_ Hcoll2].
  assert (Hpos : 0 < l_theta_pl l1).
  { assert (0 <= l_theta_pl l1).
    { rewrite Hth1. apply Rmult_le_pos; [lra | apply pow2_ge_0]. }
    lra. }
  rewrite (run_writes _ _ _ _ H1), (run_writes _ _ _ _ H2).
  cbn [Kooi_writes]. rewrite Hcoll1, Hcoll2.
  repeat split; try assumption; try reflexivity.
  rewrite Hb, Hth. apply Rmult_lt_compat_r; [now apply Rinv_0_lt_compat |].
  now apply Rmult_lt_compat_l.
Qed.

Lemma with_phy_valid (nd d : R) :
  0 < nd + d -> valid uniform_ocean (with_phy sampled_particle nd d).
Proof.
  intros H. constructor; unfold with_phy; attr_simpl; simpl; lra.
Qed.

Lemma run_aa_with_phy fs p nd d l p' :
  Kooi_run fs (with_phy p nd d) l p' -> 0 < Wt_N fs -> 0 < nd + d ->
  l_aa l = (nd + d) * Wt_N fs / 356.04e-9.
Proof.
  intros Hr HW Hn. pose proof (run_aa _ _ _ _ Hr) as Haa.
  unfold with_phy in Haa. attr_simpl_in Haa.
  assert (0 < (nd + d) * Wt_N fs / 356.04e-9)
    by (apply Rdiv_lt_0_compat; [now apply Rmult_lt_0_compat | lra]).
  destruct (Rlt_dec ((nd + d) * Wt_N fs / 356.04e-9) 0); lra.
Qed.

Lemma a_coll_increasing_witness :
  exists l1 p1' l2 p2',
    Kooi_body uniform_ocean (with_phy sampled_particle 0.5 0.5) = Some (l1, p1') /\
    Kooi_body uniform_ocean (with_phy sampled_particle 1 1) = Some (l2, p2') /\
    0 < l_beta_a l1 /\
    l_aa l1 < l_aa l2 /\
    p1' F.a_coll < p2' F.a_coll.
Proof.
  assert (Hn1 : 0 < 0.5 + 0.5) by lra.
  assert (Hn2 : 0 < 1 + 1) by lra.
  assert (HW : 0 < Wt_N uniform_ocean) by (simpl; lra).
  destruct (Kooi_completes _ _ (with_phy_valid 0.5 0.5 Hn1)) as (l1 & p1' & E1).
  destruct (Kooi_completes _ _ (with_phy_valid 1 1 Hn2)) as (l2 & p2' & E2).
  exists l1, p1', l2, p2'.
  assert (Hbeta : 0 < l_beta_a l1).
  { apply (run_beta_a_pos _ _ _ _ (Kooi_body_run _ _ _ _ E1));
      unfold with_phy; attr_simpl; simpl; lra. }
  assert (Haa : l_aa l1 < l_aa l2).
  { rewrite (run_aa_with_phy _ _ _ _ _ _ (Kooi_body_run _ _ _ _ E1) HW Hn1).
    rewrite (run_aa_with_phy _ _ _ _ _ _ (Kooi_body_run _ _ _ _ E2) HW Hn2).
    simpl. lra. }
  repeat split; try assumption.
  apply (a_coll_increasing uniform_ocean sampled_particle
           0.5 0.5 1 1 l1 p1' l2 p2' E1 E2 Hbeta Haa).
Defined.

(** ** The viscosity profile *)

(** C5: for every sampled temperature [t], every sampled raw salinity [s]
    and every sea-water density [rho_sw] of the particle, [Profiles]
    returns a particle (it has no error condition) whose dynamic viscosity
    is [mu_w * (1 + A * S + B * S ^ 2)] and whose kinematic viscosity is
    [sw_visc / rho_sw], with [mu_w], [A], [B] and [S = s / 1000] as the
    specification writes them: functions of the three scalars alone.  The
    other samples are passed through. *)
Theorem Profiles_viscosity fs p time :
  let t := cons_temperature fs time (p F.depth) (p F.lat) (p F.lon) in
  let s := abs_salinity fs time (p F.depth) (p F.lat) (p F.lon) in
  let rho_sw := p F.density in
  exists p',
    Profiles fs p time = Some p' /\
    p' F.sw_visc = spec_sw_visc t s /\
    p' F.kin_visc = spec_kin_visc t s rho_sw /\
    p' F.kin_visc = p' F.sw_visc / rho_sw /\
    p' F.temp = t /\
    p' F.d_phy = d_phy fs time (p F.depth) (p F.lat) (p F.lon) /\
    p' F.nd_phy = nd_phy fs time (p F.depth) (p F.lat) (p F.lon) /\
    p' F.tpp3 = tpp3 fs time (p F.depth) (p F.lat) (p F.lon) /\
    p' F.w_adv = W fs time (p F.depth) (p F.lat) (p F.lon).
Proof.
  intros t s rho_sw.
  unfold Profiles. cbv beta zeta. attr_simpl.
  fold t. fold s. fold rho_sw.
  eexists. split; [reflexivity |].
  attr_simpl. unfold spec_kin_visc, spec_sw_visc, spec_mu_w, spec_A, spec_B.
  cbv zeta. repeat split; reflexivity.
Qed.

(** ** Scenario 1 next to the fault *)

(** A particle without attached algae has the radius and the density of
    its plastic core. *)
Lemma bare_particle_run fs p l p' :
  Kooi_run fs p l p' -> p F.a = 0 -> 0 < p F.r_pl ->
  l_r_tot l = p F.r_pl /\ l_rho_tot l = p F.rho_pl.
Proof.
  intros Hr Ha Hpl.
  destruct (run_r_tot_pos _ _ _ _ Hr) as (_ & Hrt & _).
  assert (Hrt' : l_r_tot l = p F.r_pl).
  { rewrite Hrt, (run_v_tot _ _ _ _ Hr), (run_theta_pl _ _ _ _ Hr),
      volume_balance, Ha.
    replace (p F.r_pl ^ 3 + 3 * V_a fs * 0 * p F.r_pl ^ 2) with (p F.r_pl ^ 3)
      by ring.
    now apply Rpower_cube_third. }
  split; [exact Hrt' |].
  pose proof (run_rho_tot _ _ _ _ Hr) as Hrho.
  rewrite <- (run_r_tot _ _ _ _ Hr), Hrt' in Hrho.
  apply div_inv in Hrho. destruct Hrho as [Hne ->]. field. lra.
Qed.

(** Scenario 1 with some ambient algae, however little: when the step
    completes, the particle is lighter than the water, its velocity is
    negative and the depth is clamped to 0.6 with zero velocity; the
    attached-algae density changes by the collision term alone. *)
Lemma scenario_1_with_algae fs p l p' :
  Kooi_body fs p = Some (l, p') ->
  p F.a = 0 -> 0 < p F.r_pl -> p F.rho_pl < p F.density -> 0 < p F.density ->
  0 < p F.kin_visc -> 0 < G fs -> p F.depth = 0.6 -> 0 < p F.dt ->
  p' F.delta_rho < 0 /\
  p' F.vs_init < 0 /\
  p' F.depth = 0.6 /\
  p' F.vs = 0 /\
  p' F.a = p F.dt * l_a_coll l.
Proof.
  intros H Ha Hpl Hlight Hsw Hk Hg Hz Hdt. apply Kooi_body_run in H.
  destruct (bare_particle_run _ _ _ _ H Ha Hpl) as [Hrt Hrho].
  destruct (run_r_tot_pos _ _ _ _ H) as (_ & _ & Hrpos).
  pose proof (run_delta_rho _ _ _ _ H) as Hdelta.
  assert (Hneg : l_delta_rho l < 0).
  { destruct (div_inv _ _ _ Hdelta) as [_ ->]. rewrite Hrho.
    assert (0 < / p F.density) by now apply Rinv_0_lt_compat.
    unfold Rdiv. nra. }
  destruct (dstar_of_delta_rho _ _ _ _ _ _ _ Hg Hk Hsw Hrpos
              Hdelta (run_dstar _ _ _ _ H)) as (c & Hc & Hdstar).
  destruct (w_inv _ _ (run_w _ _ _ _ H)) as [_ Hw].
  assert (Hw' : l_delta_rho l <> 0 -> 0 < l_w l).
  { intros _. apply Hw. rewrite Hdstar. apply Rmult_integral_contrapositive.
    split; lra. }
  destruct (vs_sign _ _ _ _ _ Hg Hk Hw' (run_vs_init _ _ _ _ H))
    as (_ & _ & Hvs).
  specialize (Hvs Hneg).
  assert (Hband : out_of_band (l_z0 l) = true).
  { apply out_of_band_spec. left. rewrite (run_z0 _ _ _ _ H), Hz.
    assert (l_vs_init l * p F.dt < 0) by nra. lra. }
  rewrite !(run_writes _ _ _ _ H). cbn [Kooi_writes]. rewrite Hband.
  repeat split; try assumption; try reflexivity.
  rewrite (run_a_growth _ _ _ _ H), (run_a_mort _ _ _ _ H), Ha.
  destruct (run_a_resp _ _ _ _ H) as (q & _ & ->). rewrite Ha. ring.
Qed.

Lemma scenario_1_with_algae_runs :
  exists l p',
    Kooi_body uniform_ocean sampled_particle = Some (l, p') /\
    p' F.delta_rho < 0 /\ p' F.vs_init < 0 /\ p' F.depth = 0.6 /\
    p' F.vs = 0 /\ p' F.a = sampled_particle F.dt * l_a_coll l.
Proof.
  destruct (Kooi_completes _ _ uniform_ocean_valid) as (l & p' & E).
  exists l, p'. split; [exact E |].
  apply (scenario_1_with_algae uniform_ocean sampled_particle l p' E);
    simpl; lra.
Qed.

(** * Further properties of the kernels *)

(** ** What [Kooi] reads *)

(** Two particles that agree on the attributes [Kooi] reads, up to the sign
    of the previous settling velocity, run alike. *)
Lemma Kooi_body_agree fs p q l p' :
  (forall f, read_by_Kooi f = true -> f <> F.vs -> q f = p f) ->
  Rabs (q F.vs) = Rabs (p F.vs) ->
  Kooi_body fs p = Some (l, p') ->
  exists q',
    Kooi_body fs q = Some (l, q') /\
    forall f, q' f = Kooi_writes q l f.
Proof.
  intros Hread Habs H.
  assert (Hdepth : q F.depth = p F.depth) by (apply Hread; [reflexivity | discriminate]).
  assert (Htemp : q F.temp = p F.temp) by (apply Hread; [reflexivity | discriminate]).
  assert (Hsw : q F.sw_visc = p F.sw_visc) by (apply Hread; [reflexivity | discriminate]).
  assert (Hkin : q F.kin_visc = p F.kin_visc) by (apply Hread; [reflexivity | discriminate]).
  assert (Hden : q F.density = p F.density) by (apply Hread; [reflexivity | discriminate]).
  assert (Ha : q F.a = p F.a) by (apply Hread; [reflexivity | discriminate]).
  assert (Hnd : q F.nd_phy = p F.nd_phy) by (apply Hread; [reflexivity | discriminate]).
  assert (Hd : q F.d_phy = p F.d_phy) by (apply Hread; [reflexivity | discriminate]).
  assert (Htpp : q F.tpp3 = p F.tpp3) by (apply Hread; [reflexivity | discriminate]).
  assert (Hrpl : q F.r_pl = p F.r_pl) by (apply Hread; [reflexivity | discriminate]).
  assert (Hrho : q F.rho_pl = p F.rho_pl) by (apply Hread; [reflexivity | discriminate]).
  assert (Hdt : q F.dt = p F.dt) by (apply Hread; [reflexivity | discriminate]).
  kooi_inv H.
  unfold Kooi_body. cbv beta zeta. attr_simpl.
  rewrite ?Hdepth, ?Htemp, ?Hsw, ?Hkin, ?Hden, ?Ha, ?Hnd, ?Hd, ?Htpp, ?Hrpl,
    ?Hrho, ?Hdt, ?Habs.
  rewrite H0; cbn [bind]. rewrite H1; cbn [bind]. rewrite H2; cbn [bind].
  rewrite H3; cbn [bind]. rewrite H4; cbn [bind]. rewrite H5; cbn [bind].
  rewrite H6; cbn [bind]. rewrite H7; cbn [bind]. rewrite H8; cbn [bind].
  rewrite H9; cbn [bind]. rewrite H10; cbn [bind]. rewrite H11; cbn [bind].
  attr_simpl.
  rewrite ?Hdepth, ?Htemp, ?Hsw, ?Hkin, ?Hden, ?Ha, ?Hnd, ?Hd, ?Htpp, ?Hrpl,
    ?Hrho, ?Hdt, ?Habs.
  destruct (out_of_band (p F.depth + x10 * p F.dt)) eqn:Hband;
    injection H as <- _;
    (eexists; split; [reflexivity |]);
    intros f; destruct f; unfold Kooi_writes; locals_simpl; attr_simpl;
    rewrite ?Hband, ?Hdepth, ?Ha, ?Hdt; reflexivity.
Qed.

(** X1: a step depends on the particle only through the thirteen attributes
    [Kooi] reads.  A particle that differs in the others (position, the
    ambient currents [u], [v], [w], [w_adv], or the diagnostics of an
    earlier step) completes exactly when the first does, with the same
    local variables and the same values written; what [Kooi] does not
    write it leaves as it found it. *)
Theorem Kooi_reads_only fs p q l p' :
  (forall f, read_by_Kooi f = true -> q f = p f) ->
  Kooi_body fs p = Some (l, p') ->
  exists q',
    Kooi_body fs q = Some (l, q') /\
    (forall f, written_by_Kooi f = true -> q' f = p' f) /\
    (forall f, written_by_Kooi f = false -> q' f = q f).
Proof.
  intros Hread H.
  destruct (Kooi_body_agree fs p q l p') as (q' & Hq & Hw).
  - intros f Hf _. now apply Hread.
  - f_equal. now apply Hread.
  - exact H.
  - exists q'. split; [exact Hq |]. split.
    + intros f Hf. rewrite Hw, (run_writes _ _ _ _ (Kooi_body_run _ _ _ _ H)).
      destruct f; try discriminate; unfold Kooi_writes;
        rewrite ?(Hread F.a eq_refl), ?(Hread F.dt eq_refl),
          ?(Hread F.depth eq_refl); reflexivity.
    + intros f Hf. rewrite Hw. now apply Kooi_writes_frame.
Qed.

Lemma Kooi_reads_only_witness :
  exists l p' q',
    Kooi_body uniform_ocean sampled_particle = Some (l, p') /\
    Kooi_body uniform_ocean (setattr sampled_particle F.w_adv 3) = Some (l, q') /\
    (forall f, written_by_Kooi f = true -> q' f = p' f).
Proof.
  destruct (Kooi_completes _ _ uniform_ocean_valid) as (l & p' & E).
  assert (Hread : forall f, read_by_Kooi f = true ->
                    setattr sampled_particle F.w_adv 3 f = sampled_particle f).
  { intros f Hf. destruct f; try discriminate; reflexivity. }
  destruct (Kooi_reads_only uniform_ocean sampled_particle
              (setattr sampled_particle F.w_adv 3) l p' Hread E)
    as (q' & Hq & Hw & _).
  exists l, p', q'. split; [exact E |]. split; [exact Hq | exact Hw].
Defined.

(** X2: the previous settling velocity enters a step only through its
    absolute value (source line 95): started with the velocity [- v] instead
    of [v], the step completes with the same local variables and returns
    the same particle. *)
Theorem Kooi_previous_velocity_sign fs p v l p' :
  Kooi_body fs (setattr p F.vs v) = Some (l, p') ->
  exists q',
    Kooi_body fs (setattr p F.vs (- v)) = Some (l, q') /\
    forall f, q' f = p' f.
Proof.
  intros H.
  destruct (Kooi_body_agree fs (setattr p F.vs v) (setattr p F.vs (- v)) l p')
    as (q' & Hq & Hw).
  - intros f Hf Hne. destruct f; try discriminate; try reflexivity.
    now contradiction Hne.
  - attr_simpl. apply Rabs_Ropp.
  - exact H.
  - exists q'. split; [exact Hq |].
    intros f. rewrite Hw, (run_writes _ _ _ _ (Kooi_body_run _ _ _ _ H)).
    destruct f; unfold Kooi_writes; attr_simpl; reflexivity.
Qed.

Lemma sampled_with_vs_valid (v : R) :
  valid uniform_ocean (setattr sampled_particle F.vs v).
Proof. constructor; attr_simpl; simpl; lra. Qed.

Lemma Kooi_previous_velocity_sign_witness :
  exists l p' q',
    Kooi_body uniform_ocean (setattr sampled_particle F.vs 0.001) = Some (l, p') /\
    Kooi_body uniform_ocean (setattr sampled_particle F.vs (- (0.001))) = Some (l, q') /\
    forall f, q' f = p' f.
Proof.
  destruct (Kooi_completes _ _ (sampled_with_vs_valid 0.001)) as (l & p' & E).
  destruct (Kooi_previous_velocity_sign uniform_ocean sampled_particle 0.001 l p' E)
    as (q' & Hq & Hw).
  exists l, p', q'. split; [exact E |]. split; [exact Hq | exact Hw].
Defined.

(** ** The growth rate *)

(** X3: the conversion from nitrogen to cell counts cancels in the growth
    rate.  In a completed step with a positive converted phytoplankton sum
    [(nd_phy + d_phy) * Wt_N], [mu_aa] is the productivity per unit of
    phytoplankton, clamped at zero and converted from per day to per
    second, whatever [Wt_N] and the nitrogen content of a cell; the
    recorded growth term is [mu_aa * a]. *)
Theorem growth_rate_per_phytoplankton fs p l p' :
  Kooi_body fs p = Some (l, p') ->
  0 < (p F.nd_phy + p F.d_phy) * Wt_N fs ->
  l_mu_aa l = Rmax 0 (p F.tpp3 / (p F.nd_phy + p F.d_phy)) / 86400 /\
  0 <= l_mu_aa l /\
  p' F.a_growth = l_mu_aa l * p F.a.
Proof.
  intros H Hprod. apply Kooi_body_run in H.
  pose proof (run_aa _ _ _ _ H) as Haa.
  assert (Hn2 : 0 < (p F.nd_phy + p F.d_phy) * Wt_N fs / 356.04e-9)
    by (apply Rdiv_lt_0_compat; lra).
  destruct (Rlt_dec ((p F.nd_phy + p F.d_phy) * Wt_N fs / 356.04e-9) 0)
    as [Hneg | _]; [lra |].
  assert (Hn : p F.nd_phy + p F.d_phy <> 0)
    by (intros E; rewrite E in Hprod; lra).
  assert (HW : Wt_N fs <> 0) by (intros E; rewrite E in Hprod; lra).
  destruct (run_mu_aa _ _ _ _ H) as (mu_n2 & Hdiv & Hmu).
  apply div_inv in Hdiv. destruct Hdiv as [_ Hdiv].
  assert (Hq : mu_n2 = p F.tpp3 / (p F.nd_phy + p F.d_phy)).
  { rewrite Hdiv, (run_mu_n _ _ _ _ H), Haa. field.
    repeat split; (assumption || lra). }
  assert (Hval : l_mu_aa l = Rmax 0 (p F.tpp3 / (p F.nd_phy + p F.d_phy)) / 86400).
  { rewrite Hmu, <- Hq. unfold Rmax.
    destruct (Rlt_dec mu_n2 0); destruct (Rle_dec 0 mu_n2); lra. }
  repeat split.
  - exact Hval.
  - rewrite Hval. pose proof (Rmax_l 0 (p F.tpp3 / (p F.nd_phy + p F.d_phy))). lra.
  - rewrite (run_writes _ _ _ _ H). cbn [Kooi_writes]. exact (run_a_growth _ _ _ _ H).
Qed.

Lemma growth_rate_per_phytoplankton_witness :
  exists l p',
    Kooi_body uniform_ocean sampled_particle = Some (l, p') /\
    0 < (sampled_particle F.nd_phy + sampled_particle F.d_phy)
        * Wt_N uniform_ocean /\
    l_mu_aa l
    = Rmax 0 (sampled_particle F.tpp3
              / (sampled_particle F.nd_phy + sampled_particle F.d_phy)) / 86400.
Proof.
  destruct (Kooi_completes _ _ uniform_ocean_valid) as (l & p' & E).
  assert (Hprod : 0 < (sampled_particle F.nd_phy + sampled_particle F.d_phy)
                      * Wt_N uniform_ocean) by (simpl; lra).
  exists l, p'. split; [exact E |]. split; [exact Hprod |].
  exact (proj1 (growth_rate_per_phytoplankton _ _ _ _ E Hprod)).
Defined.

(** ** The composite density *)

Lemma run_r_tot_ge fs p l p' :
  Kooi_run fs p l p' -> 0 <= p F.a -> 0 < p F.r_pl -> p F.r_pl <= l_r_tot l.
Proof.
  intros H Ha Hr.
  destruct (run_r_tot_pos _ _ _ _ H) as (_ & Hrt & _).
  destruct (run_r_a_pos _ _ _ _ H) as (HVa & _).
  rewrite Hrt. rewrite <- (Rpower_cube_third (p F.r_pl) Hr) at 1.
  apply Rle_Rpower_l; [lra |]. split; [now apply pow_lt |].
  rewrite (run_v_tot _ _ _ _ H), (run_theta_pl _ _ _ _ H), volume_balance.
  assert (0 <= 3 * V_a fs * p F.a * p F.r_pl ^ 2).
  { apply Rmult_le_pos; [apply Rmult_le_pos; lra |]. apply pow_le. lra. }
  lra.
Qed.

(** X4: with [a >= 0] and [r_pl > 0] the total density is a volume-weighted
    mean of the densities of the plastic and of the biofilm, so it lies
    between the two. *)
Theorem total_density_between fs p l p' :
  Kooi_body fs p = Some (l, p') ->
  0 <= p F.a -> 0 < p F.r_pl ->
  Rmin (p F.rho_pl) (Rho_bf fs) <= p' F.rho_tot <= Rmax (p F.rho_pl) (Rho_bf fs).
Proof.
  intros H Ha Hr. apply Kooi_body_run in H.
  pose proof (run_r_tot_ge _ _ _ _ H Ha Hr) as Hge.
  rewrite (run_writes _ _ _ _ H). cbn [Kooi_writes].
  pose proof (run_rho_tot _ _ _ _ H) as Hrho.
  rewrite <- (run_r_tot _ _ _ _ H) in Hrho.
  apply div_inv in Hrho. destruct Hrho as [Hne Hrho].
  set (x := p F.r_pl ^ 3) in *. set (y := l_r_tot l ^ 3) in *.
  assert (Hx : 0 < x) by (unfold x; now apply pow_lt).
  assert (Hxy : x <= y) by (unfold x, y; apply pow_incr; lra).
  assert (Hy : 0 < y) by lra.
  assert (Hmul : l_rho_tot l * y = x * p F.rho_pl + (y - x) * Rho_bf fs).
  { rewrite Hrho. field. lra. }
  pose proof (Rmin_l (p F.rho_pl) (Rho_bf fs)).
  pose proof (Rmin_r (p F.rho_pl) (Rho_bf fs)).
  pose proof (Rmax_l (p F.rho_pl) (Rho_bf fs)).
  pose proof (Rmax_r (p F.rho_pl) (Rho_bf fs)).
  set (m := Rmin (p F.rho_pl) (Rho_bf fs)) in *.
  set (M := Rmax (p F.rho_pl) (Rho_bf fs)) in *.
  split.
  - apply (Rmult_le_reg_r y); [exact Hy |]. rewrite Hmul.
    assert (x * m <= x * p F.rho_pl) by (apply Rmult_le_compat_l; lra).
    assert ((y - x) * m <= (y - x) * Rho_bf fs) by (apply Rmult_le_compat_l; lra).
    lra.
  - apply (Rmult_le_reg_r y); [exact Hy |]. rewrite Hmul.
    assert (x * p F.rho_pl <= x * M) by (apply Rmult_le_compat_l; lra).
    assert ((y - x) * Rho_bf fs <= (y - x) * M) by (apply Rmult_le_compat_l; lra).
    lra.
Qed.

Lemma total_density_between_witness :
  exists l p',
    Kooi_body uniform_ocean (setattr sampled_particle F.a 1e9) = Some (l, p') /\
    Rmin 920 (Rho_bf uniform_ocean) <= p' F.rho_tot
    <= Rmax 920 (Rho_bf uniform_ocean).
Proof.
  assert (H9 : 0 <= 1e9) by lra.
  destruct (Kooi_completes _ _ (sampled_with_a_valid 1e9 H9)) as (l & p' & E).
  exists l, p'. split; [exact E |].
  apply (total_density_between uniform_ocean
           (setattr sampled_particle F.a 1e9) l p' E);
    attr_simpl; simpl; lra.
Defined.

(** ** The settling velocity as a cube root *)

Lemma Rpower_third_cubed (x : R) : 0 < x -> Rpower x (1 / 3) ^ 3 = x.
Proof.
  intros Hx.
  rewrite <- (Rpower_pow 3 _ (Rpower_pos x (1 / 3))), Rpower_mult.
  replace (1 / 3 * INR 3) with 1 by (simpl; lra).
  now apply Rpower_1.
Qed.

Lemma pow_third_cubed (x c : R) : Py.pow x (1 / 3) = Some c -> c ^ 3 = x /\ 0 <= c.
Proof.
  intros H. apply pow_third_inv in H. destruct H as [[Hx ->] | [-> ->]].
  - split; [now apply Rpower_third_cubed |].
    pose proof (Rpower_pos x (1 / 3)). lra.
  - split; [simpl; ring | lra].
Qed.

(** X5: the two branches of source lines 121-125 compute one function: in
    every completed step the cube of the pre-clamp settling velocity is
    [g * kin_visc * w * delta_rho], for a sinking and for a rising particle
    alike, and the velocity is not positive when the particle is not denser
    than the water, not negative when it is. *)
Theorem vs_init_is_cube_root fs p l p' :
  Kooi_body fs p = Some (l, p') ->
  p' F.vs_init ^ 3 = G fs * p F.kin_visc * l_w l * p' F.delta_rho /\
  (p' F.delta_rho <= 0 -> p' F.vs_init <= 0) /\
  (0 < p' F.delta_rho -> 0 <= p' F.vs_init).
Proof.
  intros H. apply Kooi_body_run in H.
  rewrite !(run_writes _ _ _ _ H). cbn [Kooi_writes].
  pose proof (run_vs_init _ _ _ _ H) as Hvs.
  destruct (Rgt_dec (l_delta_rho l) 0) as [Hd | Hd].
  - apply pow_third_cubed in Hvs. destruct Hvs as [Hc Hc0].
    repeat split; [exact Hc | lra | intros _; exact Hc0].
  - apply bind_Some in Hvs. destruct Hvs as (c & Hc & E).
    injection E as <-. apply pow_third_cubed in Hc. destruct Hc as [Hc Hc0].
    repeat split.
    + replace ((-1 * c) ^ 3) with (- c ^ 3) by ring. rewrite Hc. ring.
    + intros _. lra.
    + intros Hpos. lra.
Qed.

Lemma vs_init_is_cube_root_witness :
  exists l p',
    Kooi_body uniform_ocean sampled_particle = Some (l, p') /\
    p' F.vs_init ^ 3
    = G uniform_ocean * sampled_particle F.kin_visc * l_w l * p' F.delta_rho.
Proof.
  destruct (Kooi_completes _ _ uniform_ocean_valid) as (l & p' & E).
  exists l, p'. split; [exact E |].
  exact (proj1 (vs_init_is_cube_root _ _ _ _ E)).
Defined.

(** ** A particle that does not sink stays at the surface *)

(** X6: a particle at or above the surface bound that is not denser than
    the water is returned at depth 0.6 with zero velocity, for any time
    step that is not negative. *)
Theorem buoyant_particle_stays_at_surface fs p p' :
  Kooi fs p = Some p' ->
  p' F.delta_rho <= 0 -> p F.depth <= 0.6 -> 0 <= p F.dt ->
  p' F.vs_init <= 0 /\ p' F.depth = 0.6 /\ p' F.vs = 0.
Proof.
  intros H Hd Hz Hdt. destruct (Kooi_run_of _ _ _ H) as [l Hr].
  rewrite !(run_writes _ _ _ _ Hr) in *. cbn [Kooi_writes] in *.
  assert (Hvs : l_vs_init l <= 0).
  { pose proof (run_vs_init _ _ _ _ Hr) as Hvs.
    destruct (Rgt_dec (l_delta_rho l) 0) as [Hpos | _]; [lra |].
    apply bind_Some in Hvs. destruct Hvs as (c & Hc & E).
    injection E as <-. apply pow_third_cubed in Hc. lra. }
  assert (Hband : out_of_band (l_z0 l) = true).
  { apply out_of_band_spec. left. rewrite (run_z0 _ _ _ _ Hr).
    assert (l_vs_init l * p F.dt <= 0) by nra. lra. }
  rewrite Hband. split; [exact Hvs |]. split; reflexivity.
Qed.

Lemma buoyant_particle_stays_at_surface_witness :
  exists p',
    Kooi uniform_ocean sampled_particle = Some p' /\
    p' F.delta_rho <= 0 /\
    p' F.vs_init <= 0 /\ p' F.depth = 0.6 /\ p' F.vs = 0.
Proof.
  destruct (Kooi_completes _ _ uniform_ocean_valid) as (l & p' & E).
  assert (EK : Kooi uniform_ocean sampled_particle = Some p')
    by (unfold Kooi; now rewrite E).
  assert (Hd : p' F.delta_rho <= 0).
  { apply Rlt_le.
    apply (scenario_1_with_algae uniform_ocean sampled_particle l p' E);
      simpl; lra. }
  exists p'. split; [exact EK |]. split; [exact Hd |].
  apply (buoyant_particle_stays_at_surface uniform_ocean sampled_particle p' EK Hd);
    simpl; lra.
Defined.

(** ** The attached algae stay non-negative for a small time step *)

(** X7: for physical inputs (positive Boltzmann constant and viscosity, a
    temperature above absolute zero, a shear rate that is not negative)
    and a time step [dt >= 0] with
    [dt * (m_a + q10 ** ((t - 20) / 10) * r20) <= 1], a step from
    [a >= 0] returns [a >= 0]: the explicit Euler update cannot overshoot
    below zero.  The collision term it records is not negative. *)
Theorem attached_algae_stay_nonneg fs p l p' :
  Kooi_body fs p = Some (l, p') ->
  0 < K fs -> -273.16 < p F.temp -> 0 <= Gamma fs -> 0 < p F.sw_visc ->
  0 < Q10 fs ->
  0 <= p F.a -> 0 <= p F.dt ->
  p F.dt * (M_a fs + Rpower (Q10 fs) ((p F.temp - 20) / 10) * R20 fs) <= 1 ->
  0 <= p' F.a_coll /\ 0 <= p' F.a.
Proof.
  intros H HK Ht HG Hsw HQ Ha Hdt Hstep. apply Kooi_body_run in H.
  pose proof (run_beta_a_pos _ _ _ _ H HK Ht HG Hsw) as Hbeta.
  pose proof (run_aa_pos _ _ _ _ H) as Haa.
  pose proof (run_a_coll _ _ _ _ H) as Hcoll.
  apply div_inv in Hcoll. destruct Hcoll as [Hne Hcoll].
  assert (Hth : 0 < l_theta_pl l).
  { assert (0 <= l_theta_pl l).
    { rewrite (run_theta_pl _ _ _ _ H). pose proof PI_RGT_0.
      apply Rmult_le_pos; [lra | apply pow2_ge_0]. }
    lra. }
  assert (Hc : 0 <= l_a_coll l).
  { rewrite Hcoll. apply Rlt_le. apply Rdiv_lt_0_compat; [| exact Hth].
    now apply Rmult_lt_0_compat. }
  assert (Hmu : 0 <= l_mu_aa l).
  { destruct (run_mu_aa _ _ _ _ H) as (mu_n2 & _ & ->).
    destruct (Rlt_dec mu_n2 0); lra. }
  destruct (run_a_resp _ _ _ _ H) as (q & Hq & Hresp).
  rewrite pow_pos in Hq by exact HQ. injection Hq as <-.
  rewrite !(run_writes _ _ _ _ H). cbn [Kooi_writes].
  split; [exact Hc |].
  rewrite (run_a_growth _ _ _ _ H), (run_a_mort _ _ _ _ H), Hresp.
  set (q := Rpower (Q10 fs) ((p F.temp - 20) / 10)) in *.
  replace (p F.a
           + (l_a_coll l + l_mu_aa l * p F.a - M_a fs * p F.a
              - q * R20 fs * p F.a) * p F.dt)
    with (p F.a * (1 - p F.dt * (M_a fs + q * R20 fs))
          + p F.dt * l_a_coll l + p F.dt * (l_mu_aa l * p F.a)) by ring.
  assert (0 <= p F.a * (1 - p F.dt * (M_a fs + q * R20 fs)))
    by (apply Rmult_le_pos; lra).
  assert (0 <= p F.dt * l_a_coll l) by (apply Rmult_le_pos; lra).
  assert (0 <= p F.dt * (l_mu_aa l * p F.a))
    by (apply Rmult_le_pos; [lra | apply Rmult_le_pos; lra]).
  lra.
Qed.

Lemma reference_step_size :
  sampled_particle F.dt
  * (M_a uniform_ocean
     + Rpower (Q10 uniform_ocean) ((sampled_particle F.temp - 20) / 10)
       * R20 uniform_ocean) <= 1.
Proof.
  simpl.
  assert (Hq : Rpower 2 ((15 - 20) / 10) < 1).
  { rewrite <- (Rpower_O 2) by lra. apply Rpower_lt; lra. }
  pose proof (Rpower_pos 2 ((15 - 20) / 10)). nra.
Qed.

Lemma attached_algae_stay_nonneg_witness :
  exists l p',
    Kooi_body uniform_ocean sampled_particle = Some (l, p') /\
    0 <= p' F.a_coll /\ 0 <= p' F.a.
Proof.
  destruct (Kooi_completes _ _ uniform_ocean_valid) as (l & p' & E).
  exists l, p'. split; [exact E |].
  apply (attached_algae_stay_nonneg uniform_ocean sampled_particle l p' E);
    try exact reference_step_size; simpl; lra.
Defined.

(** * Further properties of [Profiles] and of the kernel chain *)

(** [Profiles] always returns, and what it returns is
    [Profiles_writes]. *)
Lemma Profiles_run fs p time p' :
  Profiles fs p time = Some p' ->
  forall f, p' f = Profiles_writes fs p time f.
Proof.
  unfold Profiles. cbv beta zeta. attr_simpl. intros H.
  injection H as <-.
  intros f. destruct f; attr_simpl; reflexivity.
Qed.

Lemma Profiles_completes fs p time :
  exists p', Profiles fs p time = Some p'.
Proof. unfold Profiles. cbv beta zeta. eexists. reflexivity. Qed.

(** The dynamic viscosity of the specification is positive between -40 and
    200 degrees for a salinity that is not negative. *)
Lemma spec_sw_visc_pos (t s : R) :
  -40 <= t <= 200 -> 0 <= s ->
  0.157 * (t + 64.993) ^ 2 - 91.296 <> 0 /\ 0 < spec_sw_visc t s.
Proof.
  intros [Hlo Hhi] Hs.
  assert (HD : 0 < 0.157 * (t + 64.993) ^ 2 - 91.296).
  { assert (24.993 * 24.993 <= (t + 64.993) ^ 2) by (simpl; nra). lra. }
  split; [lra |].
  unfold spec_sw_visc, spec_mu_w, spec_A, spec_B. cbv zeta.
  assert (Hinv : 0 < 1 / (0.157 * (t + 64.993) ^ 2 - 91.296))
    by (apply Rdiv_lt_0_compat; lra).
  assert (HA : 0 <= 1.541 + 1.998e-2 * t - 9.52e-5 * t ^ 2).
  { assert (0 <= (t + 40) * (200 - t)) by (apply Rmult_le_pos; lra).
    simpl. nra. }
  assert (HB : 0 <= 7.974 - 7.561e-2 * t + 4.724e-4 * t ^ 2).
  { pose proof (pow2_ge_0 (t - 80)). simpl in *. nra. }
  assert (HS : 0 <= s / 1000) by (apply Rmult_le_pos; lra).
  assert (0 <= (1.541 + 1.998e-2 * t - 9.52e-5 * t ^ 2) * (s / 1000))
    by now apply Rmult_le_pos.
  assert (0 <= (7.974 - 7.561e-2 * t + 4.724e-4 * t ^ 2) * (s / 1000) ^ 2)
    by (apply Rmult_le_pos; [exact HB | apply pow2_ge_0]).
  apply Rmult_lt_0_compat; lra.
Qed.

(** X8: for a sampled temperature between -40 and 200 degrees, a sampled
    salinity that is not negative and a positive sea-water density,
    [Profiles] completes and both viscosities it writes are positive. *)
Theorem Profiles_positive_viscosity fs p time :
  let t := cons_temperature fs time (p F.depth) (p F.lat) (p F.lon) in
  let s := abs_salinity fs time (p F.depth) (p F.lat) (p F.lon) in
  -40 <= t <= 200 -> 0 <= s -> 0 < p F.density ->
  exists p',
    Profiles fs p time = Some p' /\
    0 < p' F.sw_visc /\ 0 < p' F.kin_visc.
Proof.
  intros t s Ht Hs Hrho.
  destruct (spec_sw_visc_pos t s Ht Hs) as [HD Hpos].
  destruct (Profiles_completes fs p time) as [p' E].
  exists p'. split; [exact E |].
  pose proof (Profiles_run _ _ _ _ E) as Hw.
  rewrite !Hw. unfold Profiles_writes. cbv zeta. fold t. fold s.
  split; [exact Hpos | now apply Rdiv_lt_0_compat].
Qed.

Lemma Profiles_positive_viscosity_witness :
  exists p',
    Profiles uniform_ocean sampled_particle 0 = Some p' /\
    0 < p' F.sw_visc /\ 0 < p' F.kin_visc.
Proof.
  apply (Profiles_positive_viscosity uniform_ocean sampled_particle 0);
    simpl; lra.
Defined.

Lemma Kooi_frame fs p p' :
  Kooi fs p = Some p' -> forall f, written_by_Kooi f = false -> p' f = p f.
Proof.
  intros H f Hf. destruct (Kooi_run_of _ _ _ H) as [l Hr].
  rewrite (run_writes _ _ _ _ Hr). now apply Kooi_writes_frame.
Qed.

Lemma Profiles_frame fs p time p' :
  Profiles fs p time = Some p' ->
  forall f, written_by_Profiles f = false -> p' f = p f.
Proof.
  intros H f Hf. pose proof (Profiles_run _ _ _ _ H) as Hw.
  rewrite Hw. destruct f; try discriminate; reflexivity.
Qed.

Lemma chain_inv fs p time p' :
  Profiles_then_Kooi fs p time = Some p' ->
  exists p1, Profiles fs p time = Some p1 /\ Kooi fs p1 = Some p'.
Proof. unfold Profiles_then_Kooi. apply bind_Some. Qed.

(** X9: the two kernels in sequence change only what one of them assigns.
    The plastic radius and density, the sea-water density, the time step,
    the horizontal position and the velocities [u], [v], [w] come out of a
    step as they went in, and the depth is sampled before it is moved:
    [Kooi] runs on the water properties of the depth the step started
    from. *)
Theorem chain_frame fs p time p' :
  Profiles_then_Kooi fs p time = Some p' ->
  (forall f, written_by_Profiles f = false -> written_by_Kooi f = false ->
             p' f = p f) /\
  p' F.temp = cons_temperature fs time (p F.depth) (p F.lat) (p F.lon) /\
  p' F.sw_visc
  = spec_sw_visc (cons_temperature fs time (p F.depth) (p F.lat) (p F.lon))
                 (abs_salinity fs time (p F.depth) (p F.lat) (p F.lon)) /\
  p' F.kin_visc = p' F.sw_visc / p F.density.
Proof.
  intros H. destruct (chain_inv _ _ _ _ H) as (p1 & HP & HK).
  pose proof (Profiles_run _ _ _ _ HP) as Hw.
  split; [| split; [| split]].
  - intros f HfP HfK.
    rewrite (Kooi_frame _ _ _ HK f HfK). now apply (Profiles_frame _ _ _ _ HP).
  - rewrite (Kooi_frame _ _ _ HK F.temp eq_refl), Hw. reflexivity.
  - rewrite (Kooi_frame _ _ _ HK F.sw_visc eq_refl), Hw. reflexivity.
  - rewrite (Kooi_frame _ _ _ HK F.kin_visc eq_refl),
      (Kooi_frame _ _ _ HK F.sw_visc eq_refl), !Hw. reflexivity.
Qed.

(** Physical inputs take [Profiles] to a particle that is valid for
    [Kooi]. *)
Lemma chain_valid_run fs p time :
  0 < Wt_N fs -> 0 < V_a fs -> 0 < Q10 fs -> 0 < G fs ->
  -40 <= cons_temperature fs time (p F.depth) (p F.lat) (p F.lon) <= 200 ->
  0 <= abs_salinity fs time (p F.depth) (p F.lat) (p F.lon) ->
  0 < nd_phy fs time (p F.depth) (p F.lat) (p F.lon)
      + d_phy fs time (p F.depth) (p F.lat) (p F.lon) ->
  0 < p F.density -> 0 < p F.r_pl -> 0 <= p F.a ->
  exists p1 p',
    Profiles fs p time = Some p1 /\ valid fs p1 /\ Kooi fs p1 = Some p'.
Proof.
  intros HW HV HQ HG Ht Hs Hphy Hrho Hr Ha.
  destruct (spec_sw_visc_pos _ _ Ht Hs) as [HD Hpos].
  destruct (Profiles_completes fs p time) as [p1 HP].
  pose proof (Profiles_run _ _ _ _ HP) as Hw.
  assert (Hv : valid fs p1).
  { constructor; try assumption; rewrite ?Hw; unfold Profiles_writes;
      cbv zeta; try assumption.
    now apply Rdiv_lt_0_compat. }
  destruct (Kooi_total fs p1 Hv) as [p' HK].
  exists p1, p'. split; [exact HP |]. split; [exact Hv | exact HK].
Qed.

(** X10: the kernel chain completes for physical inputs.  With the
    constants positive, a sampled temperature between -40 and 200 degrees,
    a salinity that is not negative, some phytoplankton, a positive
    sea-water density and plastic radius and an algal cover that is not
    negative, [Profiles] then [Kooi] returns a particle, and its depth lies
    between 0.6 and 4000. *)
Theorem chain_completes fs p time :
  0 < Wt_N fs -> 0 < V_a fs -> 0 < Q10 fs -> 0 < G fs ->
  -40 <= cons_temperature fs time (p F.depth) (p F.lat) (p F.lon) <= 200 ->
  0 <= abs_salinity fs time (p F.depth) (p F.lat) (p F.lon) ->
  0 < nd_phy fs time (p F.depth) (p F.lat) (p F.lon)
      + d_phy fs time (p F.depth) (p F.lat) (p F.lon) ->
  0 < p F.density -> 0 < p F.r_pl -> 0 <= p F.a ->
  exists p',
    Profiles_then_Kooi fs p time = Some p' /\ 0.6 <= p' F.depth <= 4000.
Proof.
  intros HW HV HQ HG Ht Hs Hphy Hrho Hr Ha.
  destruct (chain_valid_run fs p time HW HV HQ HG Ht Hs Hphy Hrho Hr Ha)
    as (p1 & p' & HP & _ & HK).
  exists p'. split.
  - unfold Profiles_then_Kooi. rewrite HP. exact HK.
  - destruct (Kooi_run_of _ _ _ HK) as [l Hrun].
    rewrite (run_writes _ _ _ _ Hrun). unfold Kooi_writes, out_of_band.
    rewrite <- (run_z0 _ _ _ _ Hrun).
    destruct (Rle_dec (l_z0 l) 0.6); [lra |].
    destruct (Rge_dec (l_z0 l) 4000); lra.
Qed.

Lemma chain_completes_witness :
  exists p',
    Profiles_then_Kooi uniform_ocean sampled_particle 0 = Some p' /\
    0.6 <= p' F.depth <= 4000.
Proof.
  apply (chain_completes uniform_ocean sampled_particle 0); simpl; lra.
Defined.

Lemma chain_frame_witness :
  exists p',
    Profiles_then_Kooi uniform_ocean sampled_particle 0 = Some p' /\
    p' F.r_pl = sampled_particle F.r_pl /\
    p' F.rho_pl = sampled_particle F.rho_pl /\
    p' F.kin_visc = p' F.sw_visc / sampled_particle F.density.
Proof.
  destruct (chain_valid_run uniform_ocean sampled_particle 0)
    as (p1 & p' & HP & _ & HK); try (simpl; lra).
  assert (E : Profiles_then_Kooi uniform_ocean sampled_particle 0 = Some p')
    by (unfold Profiles_then_Kooi; rewrite HP; exact HK).
  exists p'. split; [exact E |].
  destruct (chain_frame uniform_ocean sampled_particle 0 p' E)
    as (Hf & _ & _ & Hk).
  split; [apply Hf; reflexivity |]. split; [apply Hf; reflexivity | exact Hk].
Defined.

(** * Properties of [periodicBC] *)

Lemma periodicBC_lon fs p time :
  periodicBC fs p time F.lon
  = (if Rle_dec (p F.lon) (-180) then p F.lon + 360
     else if Rge_dec (p F.lon) 180 then p F.lon - 360
     else p F.lon).
Proof.
  unfold periodicBC.
  destruct (Rle_dec (p F.lon) (-180)); [reflexivity |].
  destruct (Rge_dec (p F.lon) 180); reflexivity.
Qed.

(** X11: one call of [periodicBC] shifts the longitude by one turn at most
    and touches nothing else; the longitude it returns lies in
    [-180, 180] exactly when the one it received lies in [-540, 540]. *)
Theorem periodicBC_wraps_once fs p time :
  (periodicBC fs p time F.lon = p F.lon
   \/ periodicBC fs p time F.lon = p F.lon + 360
   \/ periodicBC fs p time F.lon = p F.lon - 360) /\
  (forall f, f <> F.lon -> periodicBC fs p time f = p f) /\
  (-180 <= periodicBC fs p time F.lon <= 180 <-> -540 <= p F.lon <= 540).
Proof.
  split; [| split].
  - rewrite periodicBC_lon.
    destruct (Rle_dec (p F.lon) (-180)); [tauto |].
    destruct (Rge_dec (p F.lon) 180); tauto.
  - intros f Hf. unfold periodicBC.
    destruct (Rle_dec (p F.lon) (-180));
      [| destruct (Rge_dec (p F.lon) 180)];
      try reflexivity;
      destruct f; try reflexivity; now contradiction Hf.
  - rewrite periodicBC_lon.
    destruct (Rle_dec (p F.lon) (-180)); [split; intros; lra |].
    destruct (Rge_dec (p F.lon) 180); split; intros; lra.
Qed.

(** X12: [periodicBC] is idempotent except on the antimeridian.  For a
    longitude in [-540, 540] other than -540, -180, 180 and 540 a second
    call changes nothing; the longitudes -180 and 180 are exchanged by
    every call. *)
Theorem periodicBC_twice fs p time :
  -540 <= p F.lon <= 540 ->
  (p F.lon <> -540 -> p F.lon <> -180 -> p F.lon <> 180 -> p F.lon <> 540 ->
   periodicBC fs (periodicBC fs p time) time F.lon
   = periodicBC fs p time F.lon) /\
  (p F.lon = -180 ->
   periodicBC fs p time F.lon = 180 /\
   periodicBC fs (periodicBC fs p time) time F.lon = -180) /\
  (p F.lon = 180 ->
   periodicBC fs p time F.lon = -180 /\
   periodicBC fs (periodicBC fs p time) time F.lon = 180).
Proof.
  intros Hr. rewrite !periodicBC_lon.
  destruct (Rle_dec (p F.lon) (-180)) as [H1 | H1].
  - destruct (Rle_dec (p F.lon + 360) (-180)) as [H2 | H2]; [lra |].
    destruct (Rge_dec (p F.lon + 360) 180) as [H3 | H3];
      repeat split; intros; lra.
  - destruct (Rge_dec (p F.lon) 180) as [H2 | H2].
    + destruct (Rle_dec (p F.lon - 360) (-180)) as [H3 | H3];
        [| destruct (Rge_dec (p F.lon - 360) 180)];
        repeat split; intros; lra.
    + destruct (Rle_dec (p F.lon) (-180)); [lra |].
      destruct (Rge_dec (p F.lon) 180); [lra |].
      repeat split; intros; lra.
Qed.

Lemma periodicBC_twice_witness :
  periodicBC uniform_ocean (setattr sampled_particle F.lon 190) 0 F.lon = -170 /\
  periodicBC uniform_ocean
    (periodicBC uniform_ocean (setattr sampled_particle F.lon 190) 0) 0 F.lon
  = periodicBC uniform_ocean (setattr sampled_particle F.lon 190) 0 F.lon.
Proof.
  assert (Hr : -540 <= setattr sampled_particle F.lon 190 F.lon <= 540)
    by (attr_simpl; lra).
  split.
  - rewrite periodicBC_lon. attr_simpl.
    destruct (Rle_dec 190 (-180)); [lra |].
    destruct (Rge_dec 190 180); lra.
  - apply (periodicBC_twice uniform_ocean (setattr sampled_particle F.lon 190) 0 Hr);
      attr_simpl; lra.
Defined.

(** * Properties of [getclosest_ij] *)

(** The scan of [argmin]: with the best element so far at [bi], no larger
    than what has been seen and smaller than what was seen before it, the
    scan returns the first smallest element of the whole list. *)
Lemma argmin_from_spec (l pre : list R) (best : R) (bi : nat) :
  (bi < length pre)%nat ->
  nth bi (pre ++ l) 0 = best ->
  (forall m, (m < length pre)%nat -> best <= nth m (pre ++ l) 0) ->
  (forall m, (m < bi)%nat -> best < nth m (pre ++ l) 0) ->
  let k := Np.argmin_from best bi (length pre) l in
  (k < length (pre ++ l))%nat /\
  (forall m, (m < length (pre ++ l))%nat ->
             nth k (pre ++ l) 0 <= nth m (pre ++ l) 0) /\
  (forall m, (m < k)%nat -> nth k (pre ++ l) 0 < nth m (pre ++ l) 0).
Proof.
  revert pre best bi. induction l as [| x l IH]; intros pre best bi Hbi Hbest Hle Hlt.
  - simpl. rewrite app_nil_r in *. rewrite Hbest.
    split; [exact Hbi |]. split; [exact Hle | exact Hlt].
  - assert (Hx : nth (length pre) (pre ++ x :: l) 0 = x) by apply nth_middle.
    assert (Hpre : pre ++ x :: l = (pre ++ [x]) ++ l)
      by (rewrite <- app_assoc; reflexivity).
    assert (Hlen : length (pre ++ [x]) = S (length pre))
      by (rewrite length_app; simpl; lia).
    simpl. destruct (Rlt_dec x best) as [Hxb | Hxb].
    + rewrite Hpre in *. rewrite <- Hlen. apply IH.
      * lia.
      * exact Hx.
      * intros m Hm. rewrite Hlen in Hm.
        destruct (Nat.eq_dec m (length pre)) as [-> | Hne].
        -- rewrite Hx. lra.
        -- assert (best <= nth m ((pre ++ [x]) ++ l) 0) by (apply Hle; lia). lra.
      * intros m Hm.
        assert (best <= nth m ((pre ++ [x]) ++ l) 0) by (apply Hle; lia). lra.
    + rewrite Hpre in *. rewrite <- Hlen. apply IH.
      * lia.
      * exact Hbest.
      * intros m Hm. rewrite Hlen in Hm.
        destruct (Nat.eq_dec m (length pre)) as [-> | Hne].
        -- rewrite Hx. lra.
        -- apply Hle. lia.
      * exact Hlt.
Qed.

Lemma argmin_spec (A : Np.ndarray) (k : nat) :
  Np.argmin A = Some k ->
  (k < length (Np.flat A))%nat /\
  (forall m, (m < length (Np.flat A))%nat ->
             nth k (Np.flat A) 0 <= nth m (Np.flat A) 0) /\
  (forall m, (m < k)%nat -> nth k (Np.flat A) 0 < nth m (Np.flat A) 0).
Proof.
  unfold Np.argmin. destruct (Np.flat A) as [| x l]; [discriminate |].
  intros H. injection H as <-.
  apply (argmin_from_spec l [x] x 0).
  - simpl. lia.
  - reflexivity.
  - intros m Hm. simpl in Hm. assert (m = 0)%nat by lia. subst m. simpl. lra.
  - intros m Hm. lia.
Qed.

Lemma tabulate_length ny nx f :
  length (Np.flat (Np.tabulate ny nx f)) = (ny * nx)%nat.
Proof. simpl. now rewrite length_map, length_seq. Qed.

Lemma tabulate_nth ny nx f k :
  (k < ny * nx)%nat ->
  nth k (Np.flat (Np.tabulate ny nx f)) 0 = f (k / nx)%nat (k mod nx)%nat.
Proof.
  intros Hk. simpl.
  rewrite (nth_indep _ 0 ((fun k => f (k / nx)%nat (k mod nx)%nat) 0%nat))
    by (now rewrite length_map, length_seq).
  rewrite (map_nth (fun k => f (k / nx)%nat (k mod nx)%nat)).
  now rewrite seq_nth.
Qed.

Lemma flat_index_unravel (nx i j : nat) :
  (j < nx)%nat ->
  ((i * nx + j) / nx = i /\ (i * nx + j) mod nx = j)%nat.
Proof.
  intros Hj. split.
  - rewrite Nat.div_add_l by lia. rewrite Nat.div_small by exact Hj. lia.
  - rewrite Nat.add_comm, Nat.Div0.mod_add. now apply Nat.mod_small.
Qed.

Lemma flat_index_bound (ny nx i j : nat) :
  (i < ny)%nat -> (j < nx)%nat -> (i * nx + j < ny * nx)%nat.
Proof. intros Hi Hj. nia. Qed.

Lemma unravel_bound (ny nx k : nat) :
  (k < ny * nx)%nat ->
  ((k / nx < ny)%nat /\ (k mod nx < nx)%nat /\ (k / nx * nx + k mod nx = k)%nat).
Proof.
  intros Hk. assert (Hnx : nx <> 0%nat) by (intros ->; lia).
  split; [| split].
  - apply Nat.Div0.div_lt_upper_bound. lia.
  - now apply Nat.mod_upper_bound.
  - pose proof (Nat.div_mod_eq k nx). lia.
Qed.

(** An element of an array after an operation with a scalar. *)
Lemma item_map (f : R -> R) (A : Np.ndarray) (i j : nat) :
  Np.well_formed A ->
  (i < fst (Np.shape A))%nat -> (j < snd (Np.shape A))%nat ->
  Np.item (Np.map f A) i j = f (Np.item A i j).
Proof.
  unfold Np.well_formed, Np.item. simpl. intros Hwf Hi Hj.
  set (idx := ((if (fst (Np.shape A) =? 1)%nat then 0 else i) * snd (Np.shape A)
               + (if (snd (Np.shape A) =? 1)%nat then 0 else j))%nat).
  assert (Hidx : (idx < length (Np.flat A))%nat).
  { rewrite Hwf. unfold idx. apply flat_index_bound.
    - destruct (fst (Np.shape A) =? 1)%nat; lia.
    - destruct (snd (Np.shape A) =? 1)%nat; lia. }
  rewrite (nth_indep _ 0 (f 0)) by (now rewrite length_map).
  apply map_nth.
Qed.

Lemma map_well_formed (f : R -> R) (A : Np.ndarray) :
  Np.well_formed A -> Np.well_formed (Np.map f A).
Proof. unfold Np.well_formed. simpl. now rewrite length_map. Qed.

(** What a search that returns has found. *)
Lemma getclosest_ij_inv (lats lons : Np.ndarray) (latpt lonpt : R) (i j : nat) :
  Np.well_formed lats -> Np.well_formed lons ->
  Np.shape lons = Np.shape lats ->
  getclosest_ij lats lons latpt lonpt = Some (i, j) ->
  let nx := snd (Np.shape lats) in
  (i < fst (Np.shape lats))%nat /\ (j < nx)%nat /\
  forall i' j',
    (i' < fst (Np.shape lats))%nat -> (j' < nx)%nat ->
    dist_sq_at lats lons latpt lonpt i j <= dist_sq_at lats lons latpt lonpt i' j' /\
    ((i' * nx + j' < i * nx + j)%nat ->
     dist_sq_at lats lons latpt lonpt i j < dist_sq_at lats lons latpt lonpt i' j').
Proof.
  intros Hwa Hwo Hsh H nx. unfold getclosest_ij in H.
  destruct (Np.shape lats) as [ny nx'] eqn:Es. simpl in nx. subst nx.
  unfold Np.add in H. cbn [Np.map Np.shape] in H. rewrite Hsh, Es in H.
  cbn [fst snd] in H. unfold Np.broadcast_dim in H. rewrite !Nat.eqb_refl in H.
  cbn [bind] in H.
  apply bind_Some in H. destruct H as (k & Hk & Hu).
  apply argmin_spec in Hk. rewrite tabulate_length in Hk.
  destruct Hk as (Hkb & Hmin & Hfirst).
  unfold Np.unravel_index in Hu. cbn [fst snd] in Hu.
  destruct (Nat.ltb_spec k (ny * nx')) as [_ | Hge]; [| lia].
  injection Hu as <- <-.
  destruct (unravel_bound ny nx' k Hkb) as (Hi & Hj & Hback).
  assert (Hval : forall a b, (a < ny)%nat -> (b < nx')%nat ->
            nth (a * nx' + b)
                (Np.flat (Np.tabulate ny nx'
                   (fun i j =>
                      Np.item (Np.map (fun x => x ^ 2)
                                 (Np.map (fun x => x - latpt) lats)) i j
                      + Np.item (Np.map (fun x => x ^ 2)
                                   (Np.map (fun x => x - lonpt) lons)) i j))) 0
            = dist_sq_at lats lons latpt lonpt a b).
  { intros a b Ha Hb. rewrite tabulate_nth by now apply flat_index_bound.
    destruct (flat_index_unravel nx' a b Hb) as [-> ->].
    unfold dist_sq_at.
    rewrite !item_map; try reflexivity; try assumption;
      try (now apply map_well_formed);
      cbn [Np.map Np.shape]; rewrite ?Hsh, ?Es; cbn [fst snd]; assumption. }
  split; [exact Hi |]. split; [exact Hj |].
  intros i' j' Hi' Hj'.
  rewrite <- (Hval _ _ Hi Hj), <- (Hval _ _ Hi' Hj'), Hback.
  split.
  - apply Hmin. now apply flat_index_bound.
  - intros Hlt. apply Hfirst. lia.
Qed.

Lemma getclosest_ij_completes (lats lons : Np.ndarray) (latpt lonpt : R) :
  Np.shape lons = Np.shape lats ->
  (0 < fst (Np.shape lats) * snd (Np.shape lats))%nat ->
  exists i j, getclosest_ij lats lons latpt lonpt = Some (i, j).
Proof.
  intros Hsh Hpos. unfold getclosest_ij.
  destruct (Np.shape lats) as [ny nx] eqn:Es. cbn [fst snd] in Hpos.
  unfold Np.add. cbn [Np.map Np.shape]. rewrite Hsh, Es. cbn [fst snd].
  unfold Np.broadcast_dim. rewrite !Nat.eqb_refl. cbn [bind].
  match goal with
  | |- context [Np.argmin ?A] =>
      pose proof (tabulate_length ny nx
        (fun i j =>
           Np.item (Np.map (fun x => x ^ 2) (Np.map (fun x => x - latpt) lats)) i j
           + Np.item (Np.map (fun x => x ^ 2) (Np.map (fun x => x - lonpt) lons)) i j))
        as Hlen;
      destruct (Np.argmin A) as [k |] eqn:Ek
  end.
  - cbn [bind]. apply argmin_spec in Ek. destruct Ek as (Hk & _).
    rewrite Hlen in Hk. unfold Np.unravel_index. cbn [fst snd].
    destruct (Nat.ltb_spec k (ny * nx)) as [_ | Hge]; [| lia].
    eexists. eexists. reflexivity.
  - exfalso. unfold Np.argmin in Ek.
    destruct (Np.flat _) as [| x l]; [simpl in Hlen; lia | discriminate].
Qed.

(** X13: on a grid that is not empty the search returns a cell of the
    grid; no cell is nearer to the point in squared distance, and every
    cell before it in row-major order is strictly farther, so ties go to
    the first cell. *)
Theorem getclosest_ij_nearest (lats lons : Np.ndarray) (latpt lonpt : R) :
  Np.well_formed lats -> Np.well_formed lons ->
  Np.shape lons = Np.shape lats ->
  (0 < fst (Np.shape lats) * snd (Np.shape lats))%nat ->
  exists i j,
    getclosest_ij lats lons latpt lonpt = Some (i, j) /\
    (i < fst (Np.shape lats))%nat /\ (j < snd (Np.shape lats))%nat /\
    forall i' j',
      (i' < fst (Np.shape lats))%nat -> (j' < snd (Np.shape lats))%nat ->
      dist_sq_at lats lons latpt lonpt i j
      <= dist_sq_at lats lons latpt lonpt i' j' /\
      ((i' * snd (Np.shape lats) + j' < i * snd (Np.shape lats) + j)%nat ->
       dist_sq_at lats lons latpt lonpt i j
       < dist_sq_at lats lons latpt lonpt i' j').
Proof.
  intros Hwa Hwo Hsh Hpos.
  destruct (getclosest_ij_completes lats lons latpt lonpt Hsh Hpos) as (i & j & E).
  exists i, j. split; [exact E |].
  exact (getclosest_ij_inv lats lons latpt lonpt i j Hwa Hwo Hsh E).
Qed.

Lemma small_grid_well_formed :
  Np.well_formed small_lats /\ Np.well_formed small_lons.
Proof. split; reflexivity. Qed.

Lemma getclosest_ij_nearest_witness :
  exists i j,
    getclosest_ij small_lats small_lons 18 4 = Some (i, j) /\
    (i < 2)%nat /\ (j < 2)%nat /\
    forall i' j',
      (i' < 2)%nat -> (j' < 2)%nat ->
      dist_sq_at small_lats small_lons 18 4 i j
      <= dist_sq_at small_lats small_lons 18 4 i' j' /\
      ((i' * 2 + j' < i * 2 + j)%nat ->
       dist_sq_at small_lats small_lons 18 4 i j
       < dist_sq_at small_lats small_lons 18 4 i' j').
Proof.
  apply (getclosest_ij_nearest small_lats small_lons 18 4
           (proj1 small_grid_well_formed) (proj2 small_grid_well_formed)
           eq_refl).
  simpl. lia.
Defined.

(** X14: a point of the grid is found exactly.  When some cell has the
    latitude and longitude asked for, the search returns a cell with these
    coordinates, the first one in row-major order. *)
Theorem getclosest_ij_exact_hit (lats lons : Np.ndarray) (latpt lonpt : R)
  (i' j' : nat) :
  Np.well_formed lats -> Np.well_formed lons ->
  Np.shape lons = Np.shape lats ->
  (i' < fst (Np.shape lats))%nat -> (j' < snd (Np.shape lats))%nat ->
  Np.item lats i' j' = latpt -> Np.item lons i' j' = lonpt ->
  exists i j,
    getclosest_ij lats lons latpt lonpt = Some (i, j) /\
    Np.item lats i j = latpt /\ Np.item lons i j = lonpt /\
    (i * snd (Np.shape lats) + j <= i' * snd (Np.shape lats) + j')%nat.
Proof.
  intros Hwa Hwo Hsh Hi' Hj' Hlat Hlon.
  assert (Hpos : (0 < fst (Np.shape lats) * snd (Np.shape lats))%nat) by nia.
  destruct (getclosest_ij_completes lats lons latpt lonpt Hsh Hpos) as (i & j & E).
  exists i, j. split; [exact E |].
  destruct (getclosest_ij_inv lats lons latpt lonpt i j Hwa Hwo Hsh E)
    as (_ & _ & Hmin).
  destruct (Hmin i' j' Hi' Hj') as [Hle Hfirst].
  assert (Hzero : dist_sq_at lats lons latpt lonpt i' j' = 0).
  { unfold dist_sq_at. rewrite Hlat, Hlon. simpl. ring. }
  rewrite Hzero in Hle, Hfirst.
  assert (Ha : 0 <= (Np.item lats i j - latpt) ^ 2) by apply pow2_ge_0.
  assert (Hb : 0 <= (Np.item lons i j - lonpt) ^ 2) by apply pow2_ge_0.
  unfold dist_sq_at in Hle, Hfirst.
  assert (Ha0 : (Np.item lats i j - latpt) ^ 2 = 0) by lra.
  assert (Hb0 : (Np.item lons i j - lonpt) ^ 2 = 0) by lra.
  split; [| split].
  - assert (Np.item lats i j - latpt = 0); [| lra].
    simpl in Ha0. apply Rmult_integral in Ha0. destruct Ha0; lra.
  - assert (Np.item lons i j - lonpt = 0); [| lra].
    simpl in Hb0. apply Rmult_integral in Hb0. destruct Hb0; lra.
  - destruct (Nat.le_gt_cases (i * snd (Np.shape lats) + j)
                              (i' * snd (Np.shape lats) + j')) as [Hok | Hgt];
      [exact Hok | exfalso].
    specialize (Hfirst Hgt). lra.
Qed.

Lemma getclosest_ij_exact_hit_witness :
  exists i j,
    getclosest_ij small_lats small_lons 20 5 = Some (i, j) /\
    Np.item small_lats i j = 20 /\ Np.item small_lons i j = 5 /\
    (i * 2 + j <= 1 * 2 + 1)%nat.
Proof.
  apply (getclosest_ij_exact_hit small_lats small_lons 20 5 1 1
           (proj1 small_grid_well_formed) (proj2 small_grid_well_formed)
           eq_refl);
    try reflexivity; simpl; lia.
Defined.

(** X15: the search fails exactly on an empty grid: for two arrays of one
    shape it raises an error when the shape has no cell (the [argmin] of an
    empty array) and returns a cell otherwise. *)
Theorem getclosest_ij_empty (lats lons : Np.ndarray) (latpt lonpt : R) :
  Np.shape lons = Np.shape lats ->
  (getclosest_ij lats lons latpt lonpt = None
   <-> (fst (Np.shape lats) * snd (Np.shape lats) = 0)%nat).
Proof.
  intros Hsh. split.
  - intros Hnone.
    destruct (Nat.eq_dec (fst (Np.shape lats) * snd (Np.shape lats)) 0)
      as [E | Hne]; [exact E | exfalso].
    destruct (getclosest_ij_completes lats lons latpt lonpt Hsh) as (i & j & E);
      [lia | congruence].
  - intros Hzero. unfold getclosest_ij.
    destruct (Np.shape lats) as [ny nx] eqn:Es. cbn [fst snd] in Hzero.
    unfold Np.add. cbn [Np.map Np.shape]. rewrite Hsh, Es. cbn [fst snd].
    unfold Np.broadcast_dim. rewrite !Nat.eqb_refl. cbn [bind].
    unfold Np.argmin, Np.tabulate. cbn [Np.flat]. rewrite Hzero. reflexivity.
Qed.

Lemma getclosest_ij_empty_witness :
  getclosest_ij empty_grid empty_grid 20 5 = None.
Proof.
  apply (getclosest_ij_empty empty_grid empty_grid 20 5 eq_refl).
  reflexivity.
Defined.

(** * Properties of the release pattern *)

Lemma linspace_length a b n : length (Np.linspace a b n) = n.
Proof. unfold Np.linspace. now rewrite length_map, length_seq. Qed.

Lemma linspace_nth a b n i :
  (i < n)%nat ->
  nth i (Np.linspace a b n) 0 = a + INR i * ((b - a) / INR (n - 1)).
Proof.
  intros Hi. unfold Np.linspace.
  rewrite (nth_indep _ 0 ((fun i => a + INR i * ((b - a) / INR (n - 1))) 0%nat))
    by (now rewrite length_map, length_seq).
  rewrite (map_nth (fun i => a + INR i * ((b - a) / INR (n - 1)))).
  now rewrite seq_nth.
Qed.

Lemma concat_repeat_length (row : list R) (k : nat) :
  length (concat (repeat row k)) = (k * length row)%nat.
Proof.
  induction k as [| k IH]; [reflexivity |].
  simpl. rewrite length_app, IH. reflexivity.
Qed.

Lemma concat_repeat_nth (row : list R) (k i j : nat) :
  (i < k)%nat -> (j < length row)%nat ->
  nth (i * length row + j) (concat (repeat row k)) 0 = nth j row 0.
Proof.
  revert i. induction k as [| k IH]; intros i Hi Hj; [lia |].
  simpl. destruct i as [| i].
  - simpl. now rewrite app_nth1.
  - rewrite app_nth2 by (simpl; lia).
    replace (S i * length row + j - length row)%nat
      with (i * length row + j)%nat by (simpl; lia).
    apply IH; lia.
Qed.

(** The element of a well-formed array inside its own shape. *)
Lemma item_flat (A : Np.ndarray) (i j : nat) :
  (i < fst (Np.shape A))%nat -> (j < snd (Np.shape A))%nat ->
  Np.item A i j = nth (i * snd (Np.shape A) + j) (Np.flat A) 0.
Proof.
  intros Hi Hj. unfold Np.item.
  destruct (Nat.eqb_spec (fst (Np.shape A)) 1) as [E1 | _];
    destruct (Nat.eqb_spec (snd (Np.shape A)) 1) as [E2 | _];
    f_equal; lia.
Qed.

Lemma tile_rows_item (row : list R) (k i j : nat) :
  (i < k)%nat -> (j < length row)%nat ->
  Np.item (Np.tile_rows row k) i j = nth j row 0.
Proof.
  intros Hi Hj. rewrite item_flat by (simpl; assumption).
  simpl. now apply concat_repeat_nth.
Qed.

Lemma transpose_item (A : Np.ndarray) (i j : nat) :
  (i < snd (Np.shape A))%nat -> (j < fst (Np.shape A))%nat ->
  Np.item (Np.transpose A) i j = Np.item A j i.
Proof.
  intros Hi Hj. rewrite item_flat by (simpl; assumption).
  unfold Np.transpose. cbn [Np.shape Np.tabulate fst snd].
  rewrite tabulate_nth by now apply flat_index_bound.
  now destruct (flat_index_unravel (fst (Np.shape A)) i j Hj) as [-> ->].
Qed.

(** X16: the release positions form a regular square lattice.  Both arrays
    have [n] rows and [n] columns; the latitude of position [(i, j)] is the
    sample [i] of the latitude range and its longitude the sample [j] of
    the longitude range, each range being divided into [n - 1] equal
    parts; so every pair of a latitude and a longitude is released once. *)
Theorem release_pattern_lattice (lat0 lat1 lon0 lon1 : R) (n i j : nat) :
  (i < n)%nat -> (j < n)%nat ->
  let lat := fst (release_pattern lat0 lat1 lon0 lon1 n) in
  let lon := snd (release_pattern lat0 lat1 lon0 lon1 n) in
  Np.shape lat = (n, n) /\ Np.shape lon = (n, n) /\
  Np.well_formed lat /\ Np.well_formed lon /\
  Np.item lat i j = lat0 + INR i * ((lat1 - lat0) / INR (n - 1)) /\
  Np.item lon i j = lon0 + INR j * ((lon1 - lon0) / INR (n - 1)).
Proof.
  intros Hi Hj lat lon. unfold lat, lon, release_pattern. cbn [fst snd].
  repeat split.
  - unfold Np.transpose. cbn [Np.shape Np.tabulate Np.tile_rows fst snd].
    now rewrite linspace_length.
  - cbn [Np.shape Np.tile_rows]. now rewrite linspace_length.
  - unfold Np.well_formed, Np.transpose. rewrite tabulate_length.
    reflexivity.
  - unfold Np.well_formed. cbn [Np.flat Np.shape Np.tile_rows fst snd].
    apply concat_repeat_length.
  - rewrite transpose_item
      by (cbn [Np.shape Np.tile_rows fst snd]; rewrite ?linspace_length; assumption).
    rewrite tile_rows_item by (rewrite ?linspace_length; assumption).
    now apply linspace_nth.
  - rewrite tile_rows_item by (rewrite ?linspace_length; assumption).
    now apply linspace_nth.
Qed.

Lemma release_pattern_lattice_witness :
  Np.item (fst (release_pattern 28 36 (-135) (-143) 5)) 4 1 = 36 /\
  Np.item (snd (release_pattern 28 36 (-135) (-143) 5)) 4 1 = -137.
Proof.
  assert (Hi : (4 < 5)%nat) by lia.
  assert (Hj : (1 < 5)%nat) by lia.
  destruct (release_pattern_lattice 28 36 (-135) (-143) 5 4 1 Hi Hj)
    as (_ & _ & _ & _ & Hlat & Hlon).
  split.
  - rewrite Hlat. simpl. lra.
  - rewrite Hlon. simpl. lra.
Defined.

(** X17: the region [SO] is accepted on the command line but has no
    release pattern, and it is the only one; of the four regions that have
    one, only [SubAtl] releases as many positions as [z_release] has
    depths (100): the other three release 25. *)
Theorem release_regions (r : region) :
  (release r = None <-> r = SO) /\
  (forall lat lon,
     release r = Some (lat, lon) ->
     Np.size lat = Np.size lon /\
     (Np.size lon = Np.size z_release <-> r = SubAtl) /\
     (r <> SubAtl -> Np.size lon = 25%nat)).
Proof.
  split.
  - destruct r; simpl; split; intros H; (discriminate || reflexivity).
  - intros lat lon H.
    destruct r; simpl in H; try discriminate; injection H as <- <-;
      (split; [reflexivity |]); split;
      try (split; intros E; (discriminate || reflexivity));
      intros Hne; (reflexivity || now contradiction Hne).
Qed.

(** * Further properties of the geometry *)

(** X18: a particle without attached algae is its plastic core: the step
    reports the plastic radius as total radius, a biofilm of thickness 0,
    the plastic density as total density and the density anomaly of the
    bare plastic. *)
Theorem bare_particle fs p l p' :
  Kooi_body fs p = Some (l, p') ->
  p F.a = 0 -> 0 < p F.r_pl ->
  p' F.r_tot = p F.r_pl /\
  l_t_bf l = 0 /\
  p' F.rho_tot = p F.rho_pl /\
  p' F.delta_rho = (p F.rho_pl - p F.density) / p F.density.
Proof.
  intros H Ha Hr. apply Kooi_body_run in H.
  destruct (bare_particle_run _ _ _ _ H Ha Hr) as [Hrt Hrho].
  rewrite !(run_writes _ _ _ _ H). cbn [Kooi_writes].
  split; [exact Hrt |]. split; [| split; [exact Hrho |]].
  - pose proof (run_r_tot _ _ _ _ H). lra.
  - pose proof (run_delta_rho _ _ _ _ H) as Hd.
    apply div_inv in Hd. destruct Hd as [_ ->]. now rewrite Hrho.
Qed.

Lemma bare_particle_witness :
  exists l p',
    Kooi_body uniform_ocean sampled_particle = Some (l, p') /\
    p' F.r_tot = sampled_particle F.r_pl /\
    p' F.rho_tot = sampled_particle F.rho_pl.
Proof.
  destruct (Kooi_completes _ _ uniform_ocean_valid) as (l & p' & E).
  exists l, p'. split; [exact E |].
  assert (Ha : sampled_particle F.a = 0) by reflexivity.
  assert (Hr : 0 < sampled_particle F.r_pl) by (simpl; lra).
  destruct (bare_particle uniform_ocean sampled_particle l p' E Ha Hr)
    as (Hrt & _ & Hrho & _).
  split; [exact Hrt | exact Hrho].
Defined.

(** X19: more attached algae make a larger particle.  Of two steps from
    particles that differ only in the algal cover, the one with the larger
    cover reports the strictly larger total radius. *)
Theorem total_radius_increasing fs p a1 a2 l1 p1' l2 p2' :
  Kooi_body fs (setattr p F.a a1) = Some (l1, p1') ->
  Kooi_body fs (setattr p F.a a2) = Some (l2, p2') ->
  a1 < a2 ->
  p1' F.r_tot < p2' F.r_tot.
Proof.
  intros H1 H2 Hlt. apply Kooi_body_run in H1. apply Kooi_body_run in H2.
  destruct (run_r_tot_pos _ _ _ _ H1) as (Hv1 & Hr1 & _).
  destruct (run_r_tot_pos _ _ _ _ H2) as (_ & Hr2 & _).
  destruct (run_r_a_pos _ _ _ _ H1) as (HVa & _).
  rewrite (run_writes _ _ _ _ H1), (run_writes _ _ _ _ H2).
  cbn [Kooi_writes]. rewrite Hr1, Hr2.
  pose proof (run_v_tot _ _ _ _ H1) as Hvt1.
  pose proof (run_v_tot _ _ _ _ H2) as Hvt2.
  rewrite (run_theta_pl _ _ _ _ H1) in Hvt1.
  rewrite (run_theta_pl _ _ _ _ H2) in Hvt2.
  attr_simpl_in Hvt1. attr_simpl_in Hvt2.
  rewrite Hvt1, volume_balance in Hv1 |- *. rewrite Hvt2, volume_balance.
  assert (Hrpl : p F.r_pl <> 0).
  { pose proof (run_a_coll _ _ _ _ H1) as Hc. apply div_inv in Hc.
    destruct Hc as [Hne _]. rewrite (run_theta_pl _ _ _ _ H1) in Hne.
    attr_simpl_in Hne. intros E. apply Hne. rewrite E. simpl. ring. }
  assert (Hsq : 0 < p F.r_pl ^ 2).
  { simpl. rewrite Rmult_1_r. now apply Rsqr_pos_lt. }
  apply Rlt_Rpower_l; [lra |]. split; [exact Hv1 |].
  assert (3 * V_a fs * a1 * p F.r_pl ^ 2 < 3 * V_a fs * a2 * p F.r_pl ^ 2).
  { apply Rmult_lt_compat_r; [exact Hsq |].
    apply Rmult_lt_compat_l; lra. }
  lra.
Qed.

Lemma total_radius_increasing_witness :
  exists l1 p1' l2 p2',
    Kooi_body uniform_ocean (setattr sampled_particle F.a 0) = Some (l1, p1') /\
    Kooi_body uniform_ocean (setattr sampled_particle F.a 1e9) = Some (l2, p2') /\
    p1' F.r_tot < p2' F.r_tot.
Proof.
  assert (H0 : 0 <= 0) by lra.
  assert (H9 : 0 <= 1e9) by lra.
  assert (Hlt : 0 < 1e9) by lra.
  destruct (Kooi_completes _ _ (sampled_with_a_valid 0 H0)) as (l1 & p1' & E1).
  destruct (Kooi_completes _ _ (sampled_with_a_valid 1e9 H9)) as (l2 & p2' & E2).
  exists l1, p1', l2, p2'. split; [exact E1 |]. split; [exact E2 |].
  exact (total_radius_increasing uniform_ocean sampled_particle 0 1e9
           l1 p1' l2 p2' E1 E2 Hlt).
Defined.
